(** * ERIS mosaicking utilities: a shallow embedding of
      [eso/eris_jhchen_utils.py]

    The development embeds the combination routines of the ERIS helper
    script ([find_combined_wcs], [data_combine], [read_eris_drifts],
    [compute_eris_offset], [fill_mask]) and states their properties.

    Conventions of the embedding:
    - finite floating point values are idealised as rationals ([Q]); where
      the source relies on NaN ([fill_mask]) a cell is an [option Q] and
      [None] stands for NaN;
    - a numpy array is its shape together with its C-ordered buffer;
    - astropy [WCS] objects are mutable and shared by reference, so they
      live in an object store and the routines thread a [World];
    - Python exceptions are the [Raise] outcome of a computation;
    - astropy and reproject routines are parameters of the sections that
      embed their callers. *)

From Stdlib Require Import QArith Qround Qabs Lqa.
From stdpp Require Import gmap strings list.

Local Open Scope Z_scope.
Local Open Scope nat_scope.

(** ** Exceptions and outcomes *)

Inductive exn : Type :=
| ValueError (msg : string)
| IndexError
| KeyError (key : string)
| NameError (name : string)
| TypeError
| AttributeError
| ZeroDivisionError
| LibraryError.

Inductive outcome (A : Type) : Type :=
| Ok (a : A)
| Raise (e : exn).
Arguments Ok {A} a.
Arguments Raise {A} e.

Definition from_option {A} (e : exn) (o : option A) : outcome A :=
  match o with Some a => Ok a | None => Raise e end.

(** ** Numbers *)

Module Num.

Definition qmin (a b : Q) : Q := if Qle_bool a b then a else b.
Definition qmax (a b : Q) : Q := if Qle_bool a b then b else a.

(** [np.min] and [np.max] of a non-empty vector. *)
Definition np_min (l : list Q) : Q :=
  match l with
  | [] => 0%Q
  | x :: t => fold_left qmin t x
  end.

Definition np_max (l : list Q) : Q :=
  match l with
  | [] => 0%Q
  | x :: t => fold_left qmax t x
  end.

(** [np.round(x)]: numpy rounds halves to the even integer. *)
Definition np_round (x : Q) : Z :=
  let f := Qfloor x in
  match Qcompare (x - inject_Z f) (1 # 2) with
  | Lt => f
  | Gt => (f + 1)%Z
  | Eq => if Z.even f then f else (f + 1)%Z
  end.

(** [.astype(int)] of an integral float: the value itself when it fits a
    signed 64-bit integer, and the least 64-bit integer otherwise (the
    answer of the conversion on x86-64). *)
Definition astype_int (z : Z) : Z :=
  if ((- 2 ^ 63 <=? z) && (z <? 2 ^ 63))%Z then z else (- 2 ^ 63)%Z.

Definition qabs (x : Q) : Q := Qabs x.

Definition q_eqb (a b : Q) : bool := Qeq_bool a b.

End Num.

(** ** numpy arrays: a shape and a C-ordered buffer *)

Module Np.

Record ndarray (A : Type) : Type := mk_nd {
  shape : list nat;
  flat : list A
}.
Arguments mk_nd {A} shape flat.
Arguments shape {A} n.
Arguments flat {A} n.

Definition size_of (sh : list nat) : nat := foldr Nat.mul 1 sh.

(** [np.full(shape, fill_value)] *)
Definition full {A} (sh : list nat) (v : A) : ndarray A :=
  mk_nd sh (replicate (size_of sh) v).

Definition ndim {A} (a : ndarray A) : nat := length (shape a).

(** [len(a)]: the extent of the leading axis *)
Definition len {A} (a : ndarray A) : nat :=
  match shape a with
  | [] => 0
  | n :: _ => n
  end.

(** the number of cells under one index of the leading axis *)
Definition stride0 {A} (a : ndarray A) : nat := size_of (tail (shape a)).

(** [a[:n]] along the leading axis *)
Definition take0 {A} (n : nat) (a : ndarray A) : ndarray A :=
  match shape a with
  | [] => a
  | d :: rest => mk_nd (Nat.min n d :: rest) (take (n * size_of rest) (flat a))
  end.

(** [dst[:n] = src[:]] for arrays that agree on all but the leading axis
    and with [n = len src <= len dst]; numpy refuses other shapes. *)
Definition assign_prefix {A} (dst src : ndarray A) : option (ndarray A) :=
  match shape dst, shape src with
  | d :: rest, s :: rest' =>
      if decide (rest = rest' ∧ s ≤ d)
      then Some (mk_nd (shape dst)
                   (flat src ++ drop (length (flat src)) (flat dst)))
      else None
  | _, _ => None
  end.

Definition map {A B} (f : A -> B) (a : ndarray A) : ndarray B :=
  mk_nd (shape a) (f <$> flat a).

(** elementwise binary operation on arrays of one shape (no broadcast) *)
Definition zip_with {A B C} (f : A -> B -> C)
    (a : ndarray A) (b : ndarray B) : option (ndarray C) :=
  if decide (shape a = shape b)
  then Some (mk_nd (shape a) (zip_with f (flat a) (flat b)))
  else None.

(** row [i] of an array along its leading axis: [a[i]] *)
Definition row {A} (a : ndarray A) (i : nat) : option (ndarray A) :=
  match shape a with
  | [] => None
  | d :: rest =>
      if decide (i < d)
      then Some (mk_nd rest (take (size_of rest) (drop (i * size_of rest) (flat a))))
      else None
  end.

Definition well_formed {A} (a : ndarray A) : Prop :=
  length (flat a) = size_of (shape a).

End Np.

(** ** FITS headers and files *)

Inductive hval : Type :=
| HStr (s : string)
| HNum (q : Q).

Definition Header : Type := gmap string hval.

Record HDU : Type := mk_hdu {
  hdu_header : Header;
  hdu_data : Np.ndarray Q
}.

(** a FITS file: its header/data units by extension name *)
Definition FitsFile : Type := gmap string HDU.

(** ** Coordinate mappings *)

Record WCS : Type := mk_wcs {
  naxis : nat;
  crpix : list Q;
  crval : list Q;
  cd : option (list (list Q));
  pc : option (list (list Q));
  array_shape : list Z
}.

Definition set_crpix (w : WCS) (v : list Q) : WCS :=
  mk_wcs (naxis w) v (crval w) (cd w) (pc w) (array_shape w).
Definition set_crval (w : WCS) (v : list Q) : WCS :=
  mk_wcs (naxis w) (crpix w) v (cd w) (pc w) (array_shape w).
Definition set_array_shape (w : WCS) (v : list Z) : WCS :=
  mk_wcs (naxis w) (crpix w) (crval w) (cd w) (pc w) v.

(** ** The world the routines run in *)

(** a reference to an object of the store *)
Abbreviation ref := nat (only parsing).

Record World : Type := mk_world {
  heap : list WCS;                 (* the WCS objects, by reference *)
  stdout : list string;            (* print *)
  warnings : list string;          (* logging.warning *)
  reprojections : nat;             (* calls of reproject_adaptive so far *)
  written : list (string * Header * Np.ndarray Q);  (* files written *)
  resampled_masks : list (Np.ndarray Q)   (* the masks reproject_adaptive
                                             has returned, in call order *)
}.

Definition set_heap (w : World) (h : list WCS) : World :=
  mk_world h (stdout w) (warnings w) (reprojections w) (written w)
    (resampled_masks w).

(** ** A state and exception monad *)

Definition M (A : Type) : Type := World -> World * outcome A.

Definition ret {A} (a : A) : M A := fun w => (w, Ok a).
Definition raise {A} (e : exn) : M A := fun w => (w, Raise e).
Definition bind {A B} (m : M A) (k : A -> M B) : M B :=
  fun w => match m w with
           | (w', Ok a) => k a w'
           | (w', Raise e) => (w', Raise e)
           end.
Definition lift {A} (o : outcome A) : M A := fun w => (w, o).

Notation "x <~ m ;; k" := (bind m (fun x => k))
  (at level 100, m at next level, right associativity).
Notation "m ;;; k" := (bind m (fun _ => k))
  (at level 100, right associativity).

Definition deref (r : ref) : M WCS :=
  fun w => (w, from_option IndexError (heap w !! r)).

Definition update_obj (r : ref) (f : WCS -> WCS) : M unit :=
  fun w => match heap w !! r with
           | Some o => (set_heap w (<[r := f o]> (heap w)), Ok tt)
           | None => (w, Raise IndexError)
           end.

(** allocation of a fresh object *)
Definition alloc (o : WCS) : M ref :=
  fun w => (set_heap w (heap w ++ [o]), Ok (length (heap w))).

Definition print (s : string) : M unit :=
  fun w => (mk_world (heap w) (stdout w ++ [s]) (warnings w)
              (reprojections w) (written w) (resampled_masks w), Ok tt).

Definition logging_warning (s : string) : M unit :=
  fun w => (mk_world (heap w) (stdout w) (warnings w ++ [s])
              (reprojections w) (written w) (resampled_masks w), Ok tt).

Definition count_reprojection : M unit :=
  fun w => (mk_world (heap w) (stdout w) (warnings w)
              (S (reprojections w)) (written w) (resampled_masks w), Ok tt).

(** keeps the mask [reproject_adaptive] has just returned *)
Definition note_mask (m : Np.ndarray Q) : M unit :=
  fun w => (mk_world (heap w) (stdout w) (warnings w)
              (reprojections w) (written w) (resampled_masks w ++ [m]), Ok tt).

Definition writeto (path : string) (hdr : Header) (a : Np.ndarray Q) : M unit :=
  fun w => (mk_world (heap w) (stdout w) (warnings w)
              (reprojections w) (written w ++ [(path, hdr, a)])
              (resampled_masks w), Ok tt).

(** ** [fix_micron_unit_header] *)

Definition fix_micron_unit_header (header : Header) : Header :=
  match header !! "CUNIT3" with
  | Some (HStr u) =>
      if decide (u = "MICRON") then <["CUNIT3" := HStr "um"]> header else header
  | _ => header
  end.

(** ** [find_combined_wcs] *)

(** [np.array(rows)] of a list of coordinate tuples, then its columns:
    numpy refuses ragged rows. *)
Definition columns (rows : list (list Q)) : outcome (list (list Q)) :=
  match rows with
  | [] => Ok []
  | r0 :: _ =>
      if forallb (fun r => Nat.eqb (length r) (length r0)) rows
      then Ok ((fun j => (fun r => nth j r 0%Q) <$> rows) <$> seq 0 (length r0))
      else Raise (ValueError "inhomogeneous shape")
  end.

(** [crpix -= shift] in place: the shift must broadcast to the vector. *)
Definition isub (v : list Q) (shift : Np.ndarray Q) : outcome (list Q) :=
  match Np.shape shift, Np.flat shift with
  | [], [x] => Ok ((fun c => c - x)%Q <$> v)
  | [k], xs =>
      if decide (k = length v ∧ length xs = k) then Ok (zip_with Qminus v xs)
      else match xs with
           | [x] => if decide (k = 1) then Ok ((fun c => c - x)%Q <$> v)
                    else Raise (ValueError "operands could not be broadcast together")
           | _ => Raise (ValueError "operands could not be broadcast together")
           end
  | _, _ => Raise (ValueError "operands could not be broadcast together")
  end.

(** [m[-1,-1]] of an optional matrix attribute; [None] when the attribute
    or the entry is absent (the source catches every exception here). *)
Definition last_last (m : option (list (list Q))) : option Q :=
  match m with
  | Some rows =>
      match last rows with
      | Some r => last r
      | None => None
      end
  | None => None
  end.

(** lines 784-788 and 1008-1012: the shifts must be one per exposure *)
Definition check_shift_count (pixel_shifts : option (Np.ndarray Q)) (n : nat)
    (msg : string) : M unit :=
  match pixel_shifts with
  | Some ps => if decide (Np.len ps ≠ n) then raise (ValueError msg) else ret tt
  | None => ret tt
  end.

(** lines 821-823: the extent of the bounding box on every axis *)
Definition ranges_of (cols : list (list Q)) : list Z :=
  let low_boundaries := Num.np_min <$> cols in
  let up_boundaries := Num.np_max <$> cols in
  zip_with (fun u l => Num.astype_int (Num.np_round (u - l + 1)))
    up_boundaries low_boundaries.

Section CombinedFrame.

(** astropy: [WCS(header)], [wcs_utils.pixel_to_pixel],
    [wcs_utils.pixel_to_skycoord] (the latter as (ra, dec) in degrees). *)
Variable WCS_of_header : Header -> outcome WCS.
Variable pixel_to_pixel : WCS -> WCS -> list Q -> outcome (list Q).
Variable pixel_to_skycoord : Q -> Q -> WCS -> outcome (Q * Q).

(** lines 775-781: the mappings of a list of files are fresh objects *)
Fixpoint wcs_of_images (header_ext : string) (image_list : list FitsFile)
    (wcs_list : list ref) : M (list ref) :=
  match image_list with
  | [] => ret wcs_list
  | fi :: rest =>
      hdu <~ lift (from_option (KeyError header_ext) (fi !! header_ext));;
      image_wcs <~ lift (WCS_of_header (fix_micron_unit_header (hdu_header hdu)));;
      r <~ alloc image_wcs;;
      wcs_of_images header_ext rest (wcs_list ++ [r])
  end.

(** lines 813-816: the inner loop over [corner_pixel_coords] *)
Fixpoint convert_corners (image_wcs first_wcs : ref)
    (corner_pixel_coords : list (list Q)) (corners : list (list Q))
    : M (list (list Q)) :=
  match corner_pixel_coords with
  | [] => ret corners
  | pixel_coord :: rest =>
      iw <~ deref image_wcs;;
      fw <~ deref first_wcs;;
      corner <~ lift (pixel_to_pixel iw fw pixel_coord);;
      convert_corners image_wcs first_wcs rest (corners ++ [corner])
  end.

(** lines 807-817: the loop over [wcs_list] *)
Fixpoint collect_corners (first_wcs : ref)
    (corner_pixel_coords : list (list Q))
    (pixel_shifts : option (Np.ndarray Q))
    (i : nat) (wcs_list : list ref) (corners : list (list Q))
    : M (list (list Q)) :=
  match wcs_list with
  | [] => ret corners
  | image_wcs :: rest =>
      match pixel_shifts with
      | Some ps =>
          shift <~ lift (from_option IndexError (Np.row ps i));;
          o <~ deref image_wcs;;
          v <~ lift (isub (crpix o) shift);;
          update_obj image_wcs (fun o => set_crpix o v)
      | None => ret tt
      end;;;
      corners' <~ convert_corners image_wcs first_wcs corner_pixel_coords corners;;
      collect_corners first_wcs corner_pixel_coords pixel_shifts (S i) rest corners'
  end.

(** lines 796-803 *)
Definition corner_pixel_coords_of (naxis : nat) (first_shape : list Z)
    : outcome (list (list Q)) :=
  let far := (fun s => inject_Z (s - 1)) <$> reverse first_shape in
  match naxis with
  | 2 => Ok [[0%Q; 0%Q]; far]
  | 3 => Ok [[0%Q; 0%Q; 0%Q]; far]
  | _ => Raise (ValueError "Unsupport datacube! Check the dimentions of the datasets!")
  end.

(** lines 832-850: the combined mapping from the bounding box *)
Definition assign_reference (first_wcs : WCS) (naxis : nat)
    (x0 y0 chan0 : Q) (sky : Q * Q) (ranges : list Z) : outcome WCS :=
  let wcs_combined := first_wcs in
  match
    match naxis with
    | 3 =>
        match
          match last_last (cd first_wcs) with
          | Some d => Some d
          | None => last_last (pc first_wcs)
          end
        with
        | None => Raise (ValueError "Cannot read the step size of the spectral dimension!")
        | Some dchan =>
            match last (crval first_wcs), last (crpix first_wcs) with
            | Some crval_last, Some crpix_last =>
                let reference_chan :=
                  (crval_last + (crpix_last - chan0 - 1) * dchan)%Q in
                Ok (set_crpix
                      (set_crval wcs_combined [fst sky; snd sky; reference_chan])
                      [x0; y0; 1%Q])
            | _, _ => Raise IndexError
            end
        end
    | 2 => Ok (set_crval wcs_combined [fst sky; snd sky])
    | _ => Ok wcs_combined
    end
  with
  | Ok wcs_combined' => Ok (set_array_shape wcs_combined' (reverse ranges))
  | Raise e => Raise e
  end.

Definition find_combined_wcs
    (image_list : option (list FitsFile)) (wcs_list : option (list ref))
    (header_ext : string) (pixel_shifts : option (Np.ndarray Q)) : M WCS :=
  wcs_list <~
    match image_list with
    | Some images => wcs_of_images header_ext images []
    | None => lift (from_option TypeError wcs_list)
    end;;
  let n_wcs := length wcs_list in
  check_shift_count pixel_shifts n_wcs
    "Pixel_shift does not match the number of images or WCSs!";;;
  first_ref <~ lift (from_option IndexError (wcs_list !! 0));;
  first_wcs <~ deref first_ref;;
  let first_shape := array_shape first_wcs in
  let naxis := naxis first_wcs in
  corner_pixel_coords <~ lift (corner_pixel_coords_of naxis first_shape);;
  corners <~ collect_corners first_ref corner_pixel_coords pixel_shifts 0 wcs_list [];;
  cols <~ lift (columns corners);;
  let low_boundaries := Num.np_min <$> cols in
  let ranges := ranges_of cols in
  chan0 <~ lift (from_option IndexError (low_boundaries !! 0));;
  match take 2 ranges with
  | [rx; ry] =>
      let x0 := (inject_Z rx * (1 # 2))%Q in
      let y0 := (inject_Z ry * (1 # 2))%Q in
      first_wcs <~ deref first_ref;;
      reference_skycoord <~ lift (pixel_to_skycoord x0 y0 first_wcs);;
      lift (assign_reference first_wcs naxis x0 y0 chan0 reference_skycoord ranges)
  | _ => raise (ValueError "not enough values to unpack")
  end.

End CombinedFrame.

(** ** [data_combine] *)

(** [numpy.ma] arrays: the data and a same-shaped boolean mask *)
Record masked : Type := mk_masked {
  ma_data : Np.ndarray Q;
  ma_mask : Np.ndarray bool
}.

(** [np.ma.masked_array(data, mask=mask)]: a non-zero flag masks the cell *)
Definition masked_array (data mask : Np.ndarray Q) : outcome masked :=
  if decide (Np.shape data = Np.shape mask)
  then Ok (mk_masked data (Np.map (fun m => negb (Num.q_eqb m 0)) mask))
  else Raise (ValueError "Mask and data not compatible")%string.

(** [data_masked.filled(0)] *)
Definition filled0 (m : masked) : Np.ndarray Q :=
  Np.mk_nd (Np.shape (ma_data m))
    (zip_with (fun v (b : bool) => if b then 0%Q else v)
       (Np.flat (ma_data m)) (Np.flat (ma_mask m))).

(** a boolean mask handed to the resampler is read as 0.0 / 1.0 *)
Definition mask_as_float (m : Np.ndarray bool) : Np.ndarray Q :=
  Np.map (fun b : bool => if b then 1%Q else 0%Q) m.

(** a shape tuple usable by [np.full]: no negative extent *)
Definition shape_of_tuple (t : list Z) : outcome (list nat) :=
  if forallb (fun z => Z.leb 0 z) t
  then Ok (Z.to_nat <$> t)
  else Raise (ValueError "negative dimensions are not allowed")%string.

(** lines 1074-1089: reconcile the channel count of a cube with the target *)
Definition reconcile_channels (shape_combined : list nat)
    (data mask : Np.ndarray Q) : M (Np.ndarray Q * Np.ndarray Q) :=
  if decide (Np.ndim data = 3) then
    target <~ lift (from_option IndexError (shape_combined !! 0));;
    (if decide (Np.len data ≠ target)
     then logging_warning "Combining data with different channels!"
     else ret tt);;;
    if decide (target ≤ Np.len data)
    then ret (Np.take0 target data, Np.take0 target mask)
    else
      let data_shape := Np.shape data in
      let data_shape_extend := target :: tail data_shape in
      let data_extend := Np.full data_shape_extend 0%Q in
      let mask_extend := Np.full data_shape_extend 0%Q in
      data' <~ lift (from_option (ValueError "could not broadcast input array")
                       (Np.assign_prefix data_extend data));;
      mask' <~ lift (from_option (ValueError "could not broadcast input array")
                       (Np.assign_prefix mask_extend mask));;
      ret (data', mask')
  else ret (data, mask).

(** in-place [acc += x] on arrays of one shape *)
Definition iadd (acc x : Np.ndarray Q) : outcome (Np.ndarray Q) :=
  from_option (ValueError "operands could not be broadcast together")
    (Np.zip_with Qplus acc x).

(** the coverage every pixel starts from: [1e-8] *)
Definition coverage_epsilon : Q := 1 # 100000000.

Section DataCombine.

Variable WCS_of_header : Header -> outcome WCS.
Variable pixel_to_pixel : WCS -> WCS -> list Q -> outcome (list Q).
Variable pixel_to_skycoord : Q -> Q -> WCS -> outcome (Q * Q).
(** [wcs.celestial], [wcs.to_header()] *)
Variable celestial : WCS -> WCS.
Variable to_header : WCS -> Header.
(** [astro_stats.sigma_clip(a, sigma=sigma, maxiters=5, masked=True)] *)
Variable sigma_clip_5 : masked -> Q -> outcome masked.
(** [a - np.ma.median(a, axis=(1,2))[:, np.newaxis, np.newaxis]] *)
Variable subtract_channel_median : masked -> outcome masked.
(** [reproject_adaptive((a, wcs_in), wcs_out, shape_out=.., conserve_flux=..)] *)
Variable reproject_adaptive :
  Np.ndarray Q -> WCS -> WCS -> list nat -> bool ->
  outcome (Np.ndarray Q * Np.ndarray Q).

(** lines 1037-1044: one fresh mapping per file; [header] stays bound to
    the last header read *)
Fixpoint read_wcs_list (header_ext : string) (image_list : list FitsFile)
    (wcs_list : list ref) (header : option Header)
    : M (list ref * option Header) :=
  match image_list with
  | [] => ret (wcs_list, header)
  | fi :: rest =>
      hdu <~ lift (from_option (KeyError header_ext) (fi !! header_ext));;
      let header := fix_micron_unit_header (hdu_header hdu) in
      image_wcs <~ lift (WCS_of_header header);;
      r <~ alloc image_wcs;;
      read_wcs_list header_ext rest (wcs_list ++ [r]) (Some header)
  end.

(** lines 1029-1033: shifted copies of the mock mapping *)
Fixpoint shifted_mock_list (wcs_mock : WCS) (pixel_shifts : Np.ndarray Q)
    (i n : nat) (wcs_list : list ref) : M (list ref) :=
  match n with
  | 0 => ret wcs_list
  | S n' =>
      shift <~ lift (from_option IndexError (Np.row pixel_shifts i));;
      match Np.shape shift, Np.flat shift with
      | [2], [x_shift; y_shift] =>
          match crpix wcs_mock with
          | [cx; cy; cc] =>
              r <~ alloc (set_crpix wcs_mock
                            [(cx + x_shift)%Q; (cy + y_shift)%Q; (cc + 0)%Q]);;
              shifted_mock_list wcs_mock pixel_shifts (S i) n' (wcs_list ++ [r])
          | _ => raise (ValueError "operands could not be broadcast together")
          end
      | [], _ => raise TypeError
      | _, _ => raise (ValueError "too many values to unpack")
      end
  end.

(** lines 1014-1044 *)
Definition resolve_wcs_list (image_list : list FitsFile) (header_ext : string)
    (pixel_shifts : option (Np.ndarray Q)) (ignore_wcs : bool)
    : M (list ref * option Header) :=
  let nimages := length image_list in
  if ignore_wcs then
    f0 <~ lift (from_option IndexError (image_list !! 0));;
    hdu <~ lift (from_option (KeyError header_ext) (f0 !! header_ext));;
    let header := fix_micron_unit_header (hdu_header hdu) in
    match WCS_of_header header with
    | Raise _ => raise AttributeError   (* [construct_wcs] returns None *)
    | Ok wcs_mock =>
        match pixel_shifts with
        | Some ps =>
            l <~ shifted_mock_list wcs_mock ps 0 nimages [];;
            ret (l, Some header)
        | None =>
            r <~ alloc wcs_mock;;
            ret (replicate nimages r, Some header)
        end
    end
  else read_wcs_list header_ext image_list [] None.

(** lines 1065-1117: the body of the loop over the exposures *)
Definition combine_one (image_list : list FitsFile) (wcs_list : list ref)
    (data_ext : string) (mask_ext : option string)
    (sigma_clip : bool) (sigma : Q) (bgsub : bool)
    (weighting : list Q) (wcs_combined : WCS) (shape_combined : list nat)
    (i : nat) (acc : Np.ndarray Q * Np.ndarray Q)
    : M (Np.ndarray Q * Np.ndarray Q) :=
  let '(data_combined, coverage_combined) := acc in
  r <~ lift (from_option IndexError (wcs_list !! i));;
  wi <~ deref r;;
  let image_wcs := celestial wi in
  fi <~ lift (from_option IndexError (image_list !! i));;
  dhdu <~ lift (from_option (KeyError data_ext) (fi !! data_ext));;
  let data := hdu_data dhdu in
  mask <~
    match mask_ext with
    | Some ext =>
        mhdu <~ lift (from_option (KeyError ext) (fi !! ext));;
        ret (hdu_data mhdu)
    | None => ret (Np.full (Np.shape data) 0%Q)
    end;;
  dm <~ reconcile_channels shape_combined data mask;;
  let '(data, mask) := dm in
  data_masked <~ lift (masked_array data mask);;
  data_masked <~ (if sigma_clip then lift (sigma_clip_5 data_masked sigma)
                  else ret data_masked);;
  data_masked <~ (if bgsub then lift (subtract_channel_median data_masked)
                  else ret data_masked);;
  let data := filled0 data_masked in
  let mask := mask_as_float (ma_mask data_masked) in
  count_reprojection;;;
  dr <~ lift (reproject_adaptive data image_wcs (celestial wcs_combined)
                shape_combined true);;
  let '(data_reprojected, _) := dr in
  count_reprojection;;;
  mr <~ lift (reproject_adaptive mask image_wcs (celestial wcs_combined)
                shape_combined false);;
  let '(mask_reprojected, _) := mr in
  note_mask mask_reprojected;;;
  wt <~ lift (from_option IndexError (weighting !! i));;
  data_combined <~
    lift (iadd data_combined (Np.map (fun v => v * wt)%Q data_reprojected));;
  coverage_combined <~
    lift (iadd coverage_combined (Np.map (fun m => 1 - m)%Q mask_reprojected));;
  ret (data_combined, coverage_combined).

Fixpoint combine_loop (step : nat -> Np.ndarray Q * Np.ndarray Q ->
                              M (Np.ndarray Q * Np.ndarray Q))
    (indices : list nat) (acc : Np.ndarray Q * Np.ndarray Q)
    : M (Np.ndarray Q * Np.ndarray Q) :=
  match indices with
  | [] => ret acc
  | i :: rest => acc' <~ step i acc;; combine_loop step rest acc'
  end.

(** lines 1121-1138: the header edits before the file is written *)
Definition reset_cdelt (header : Header) : outcome Header :=
  let copy3 (a b c : string) :=
    match header !! a, header !! b, header !! c with
    | Some va, Some vb, Some vc =>
        Ok (<["CDELT3" := vc]> (<["CDELT2" := vb]> (<["CDELT1" := va]> header)))
    | None, _, _ => Raise (KeyError a)
    | _, None, _ => Raise (KeyError b)
    | _, _, None => Raise (KeyError c)
    end in
  if decide (is_Some (header !! "CD1_1")) then copy3 "CD1_1" "CD2_2" "CD3_3"
  else if decide (is_Some (header !! "PC1_1")) then copy3 "PC1_1" "PC2_2" "PC3_3"
  else Ok header.

(** lines 1004-1117: everything up to the final division; the result is
    the combined mapping, the header last read, and the two accumulators *)
Definition accumulate_exposures (image_list : list FitsFile) (data_ext : string)
    (mask_ext : option string) (pixel_shifts : option (Np.ndarray Q))
    (ignore_wcs : bool) (sigma_clip : bool) (sigma : Q) (bgsub : bool)
    (header_ext : option string) (weighting : option (list Q))
    : M (WCS * option Header * (Np.ndarray Q * Np.ndarray Q)) :=
  let nimages := length image_list in
  let header_ext := default data_ext header_ext in
  check_shift_count pixel_shifts nimages
    "Pixel_shift does not match the number of images!";;;
  wh <~ resolve_wcs_list image_list header_ext pixel_shifts ignore_wcs;;
  let '(wcs_list, header) := wh in
  wcs_combined <~
    find_combined_wcs WCS_of_header pixel_to_pixel pixel_to_skycoord
      None (Some wcs_list) "DATA" None;;
  shape_combined <~ lift (shape_of_tuple (array_shape wcs_combined));;
  let data_combined := Np.full shape_combined 0%Q in
  let coverage_combined := Np.full shape_combined coverage_epsilon in
  let weighting :=
    match weighting with
    | Some wt => wt
    | None => replicate nimages (1 / inject_Z (Z.of_nat nimages))%Q
    end in
  acc <~ combine_loop
           (combine_one image_list wcs_list data_ext mask_ext sigma_clip sigma
              bgsub weighting wcs_combined shape_combined)
           (seq 0 nimages) (data_combined, coverage_combined);;
  ret (wcs_combined, header, acc).

Definition data_combine (image_list : list FitsFile) (data_ext : string)
    (mask_ext : option string) (pixel_shifts : option (Np.ndarray Q))
    (ignore_wcs : bool) (sigma_clip : bool) (sigma : Q) (bgsub : bool)
    (header_ext : option string) (weighting : option (list Q))
    (savefile : option string)
    : M (option (Np.ndarray Q * Np.ndarray Q)) :=
  r <~ accumulate_exposures image_list data_ext mask_ext pixel_shifts ignore_wcs
         sigma_clip sigma bgsub header_ext weighting;;
  let '(wcs_combined, header, (data_combined, coverage_combined)) := r in
  data_combined <~
    lift (from_option (ValueError "operands could not be broadcast together")
            (Np.zip_with Qdiv data_combined coverage_combined));;
  match savefile with
  | Some path =>
      let hdr := <["COMMENT" := HStr "Combined by eris_jhchen_utils.py"]>
                   (<["OBSERVER" := HStr "MPE-IR"]> (to_header wcs_combined)) in
      header <~ lift (from_option (NameError "header") header);;
      lift (reset_cdelt header);;;
      writeto path hdr data_combined;;;
      ret None
  | None =>
      (* [return data_combined, error_combined]: the second name is never bound *)
      raise (NameError "error_combined")
  end.

End DataCombine.

(** ** [read_eris_drifts] and [compute_eris_offset] *)

(** a row of the drift table (a CSV file read with astropy) *)
Record drift_row : Type := mk_drift_row {
  ARCFILE : string;
  x_model : Q;
  y_model : Q
}.

(** [additional_drifts]: a literal array of (x, y) rows, or the name of a
    drift table, here the table it holds *)
Inductive drifts_arg : Type :=
| DriftArray (a : list (Q * Q))
| DriftTable (dat : list drift_row).

Definition pixel_center : Q * Q := (32, 32)%Q.

Definition header_num (header : Header) (key : string) : outcome Q :=
  match header !! key with
  | Some (HNum q) => Ok q
  | Some (HStr _) => Raise TypeError
  | None => Raise (KeyError key)
  end.

Definition arcfile_matches (arcfile : hval) (r : drift_row) : bool :=
  match arcfile with
  | HStr s => bool_decide (ARCFILE r = s)
  | HNum _ => false
  end.

(** lines 1211-1218 *)
Fixpoint read_eris_drifts_loop (dat : list drift_row) (arcfilenames : list hval)
    (drifts : list (Q * Q)) : M (list (Q * Q)) :=
  match arcfilenames with
  | [] => ret drifts
  | arcfile :: rest =>
      let dat_img := filter (fun r => arcfile_matches arcfile r = true) dat in
      match dat_img with
      | [r] =>
          read_eris_drifts_loop dat rest
            (drifts ++ [(x_model r - fst pixel_center, y_model r - snd pixel_center)%Q])
      | _ =>
          print "Drifts not found!";;;
          read_eris_drifts_loop dat rest (drifts ++ [(0, 0)%Q])
      end
  end.

Definition read_eris_drifts (dat : list drift_row) (arcfilenames : list hval)
    : M (list (Q * Q)) :=
  read_eris_drifts_loop dat arcfilenames [].

(** Python float division *)
Definition py_div (a b : Q) : outcome Q :=
  if Num.q_eqb b 0 then Raise ZeroDivisionError else Ok (a / b)%Q.

(** lines 1268-1269 *)
Fixpoint add_drifts (i : nat) (array_offset : list (Q * Q))
    (additional_drifts : list (Q * Q)) : outcome (list (Q * Q)) :=
  match array_offset with
  | [] => Ok []
  | (x, y) :: rest =>
      match additional_drifts !! i with
      | None => Raise IndexError
      | Some (dx, dy) =>
          match add_drifts (S i) rest additional_drifts with
          | Ok rest' => Ok ((x + dx, y + dy)%Q :: rest')
          | Raise e => Raise e
          end
      end
  end.

Section OffsetEstimator.

Variable WCS_of_header : Header -> outcome WCS.

(** lines 1244-1259 *)
Fixpoint offset_loop (header_ext header_ext_data : string)
    (ra_offset_header dec_offset_header coord_system : string)
    (image_list : list FitsFile) (zero : option (Q * Q))
    (arcfilenames : list hval) (array_offset : list (Q * Q))
    : M (list hval * list (Q * Q)) :=
  match image_list with
  | [] => ret (arcfilenames, array_offset)
  | img :: rest =>
      hdu <~ lift (from_option (KeyError header_ext) (img !! header_ext));;
      let header := hdu_header hdu in
      dhdu <~ lift (from_option (KeyError header_ext_data) (img !! header_ext_data));;
      let data_header := hdu_header dhdu in
      arcfile <~ lift (from_option (KeyError "ARCFILE") (header !! "ARCFILE"));;
      ra_offset <~ lift (header_num header ra_offset_header);;
      dec_offset <~ lift (header_num header dec_offset_header);;
      cd1_1 <~ lift (header_num data_header "CD1_1");;
      let ra_diff := Num.qabs (cd1_1 * 3600) in
      cd2_2 <~ lift (header_num data_header "CD2_2");;
      let dec_diff := Num.qabs (cd2_2 * 3600) in
      zero' <~
        match zero with
        | None =>
            (if decide (coord_system = "sky")
             then (_ <~ lift (WCS_of_header header);; ret tt)
             else ret tt);;;
            ret (ra_offset, dec_offset)
        | Some z => ret z
        end;;
      dx <~ lift (py_div (ra_offset - fst zero') ra_diff);;
      dy <~ lift (py_div (dec_offset - snd zero') dec_diff);;
      offset_loop header_ext header_ext_data ra_offset_header dec_offset_header
        coord_system rest (Some zero')
        (arcfilenames ++ [arcfile]) (array_offset ++ [(dx, dy)])
  end.

Definition compute_eris_offset (image_list : list FitsFile)
    (additional_drifts : option drifts_arg)
    (header_ext header_ext_data : string)
    (ra_offset_header dec_offset_header coord_system : string)
    : M (list (Q * Q)) :=
  r <~ offset_loop header_ext header_ext_data ra_offset_header dec_offset_header
         coord_system image_list None [] [];;
  let '(arcfilenames, array_offset) := r in
  print ">>>>>>>>\nOCS offset:";;;
  print "array_offset";;;
  match additional_drifts with
  | None => ret array_offset
  | Some d =>
      additional_drifts <~
        match d with
        | DriftTable dat =>
            a <~ read_eris_drifts dat arcfilenames;;
            print "++++++++\n additional difts:";;;
            print "additional_drifts";;;
            ret a
        | DriftArray a => ret a
        end;;
      lift (add_drifts 0 array_offset additional_drifts)
  end.

End OffsetEstimator.

(** ** [fill_mask] *)

Module Fill.

(** a float cell: [None] is NaN *)
Definition cell : Type := option Q.

Definition is_nan (c : cell) : bool :=
  match c with None => true | Some _ => false end.

(** the multi-indices of the cartesian product of per-axis index ranges,
    in C order *)
Fixpoint cart (ranges : list (list nat)) : list (list nat) :=
  match ranges with
  | [] => [[]]
  | r :: rest => i ← r; (cons i) <$> cart rest
  end.

(** all the multi-indices of a shape, in C order *)
Definition indices (sh : list nat) : list (list nat) := cart (seq 0 <$> sh).

(** the buffer offset of a multi-index *)
Fixpoint ravel (sh idx : list nat) : nat :=
  match sh, idx with
  | _ :: sh', i :: idx' => i * Np.size_of sh' + ravel sh' idx'
  | _, _ => 0
  end.

Definition get (a : Np.ndarray cell) (idx : list nat) : option cell :=
  Np.flat a !! ravel (Np.shape a) idx.

Definition set (a : Np.ndarray cell) (idx : list nat) (v : cell)
    : Np.ndarray cell :=
  Np.mk_nd (Np.shape a) (<[ravel (Np.shape a) idx := v]> (Np.flat a)).

(** [np.argwhere(mask > 0)] *)
Definition argwhere_pos (mask : Np.ndarray Z) : list (list nat) :=
  fst <$> filter (fun p => (0 < snd p)%Z) (zip (indices (Np.shape mask)) (Np.flat mask)).

(** [a[lo:hi]] along an axis of extent [s]: Python normalises the bounds *)
Definition py_slice (s : nat) (lo hi : Z) : list nat :=
  let norm x := if (x <? 0)%Z then Z.max (x + Z.of_nat s) 0
                else Z.min x (Z.of_nat s) in
  seq (Z.to_nat (norm lo)) (Z.to_nat (norm hi - norm lo)).

Fixpoint insert_sorted (x : Q) (l : list Q) : list Q :=
  match l with
  | [] => [x]
  | y :: t => if Qle_bool x y then x :: l else y :: insert_sorted x t
  end.

Definition sort (l : list Q) : list Q := foldr insert_sorted [] l.

(** [np.nanmedian] of the cells of a sub-array: NaN when none is finite *)
Definition nanmedian (vals : list cell) : cell :=
  let xs := sort (omap id vals) in
  let n := length xs in
  if Nat.eqb n 0 then None
  else if Nat.odd n then xs !! (n / 2)
  else match xs !! (n / 2 - 1), xs !! (n / 2) with
       | Some lo, Some hi => Some ((lo + hi) / 2)%Q
       | _, _ => None
       end.

(** lines 923-929: the index window of a cell, clamped at the low edge;
    the guard of the high edge holds for no index of the array, and its
    assignment cannot be carried out (the operands do not broadcast) *)
Definition idx_range_of (image_shape idx : list nat) : outcome (list (Z * Z)) :=
  let idx_range := (fun i => (Z.of_nat i - 1, Z.of_nat i + 2)%Z) <$> idx in
  let clamp0 (z : Z) := if (z <? 0)%Z then 0%Z else z in
  let idx_range :=
    if existsb (fun i => Nat.ltb i 1) idx
    then (fun r => (clamp0 (fst r), clamp0 (snd r))) <$> idx_range
    else idx_range in
  if existsb (fun p => (Z.of_nat (fst p) - Z.of_nat (snd p) <? 1)%Z)
       (zip image_shape idx)
  then Raise (if decide (length idx = 1) then IndexError
              else ValueError "operands could not be broadcast together")
  else Ok idx_range.

(** the cells of [image_filled[ss]] *)
Definition window (a : Np.ndarray cell) (idx_range : list (Z * Z)) : list cell :=
  omap (get a)
    (cart (zip_with (fun s r => py_slice s (fst r) (snd r)) (Np.shape a) idx_range)).

(** lines 923-931: the body of the loop over [mask_idx] *)
Definition fill_cell (a : Np.ndarray cell) (idx : list nat)
    : outcome (Np.ndarray cell) :=
  match idx_range_of (Np.shape a) idx with
  | Raise e => Raise e
  | Ok idx_range => Ok (set a idx (nanmedian (window a idx_range)))
  end.

(** one trip round the [for] loop *)
Fixpoint pass (mask_idx : list (list nat)) (a : Np.ndarray cell)
    : outcome (Np.ndarray cell) :=
  match mask_idx with
  | [] => Ok a
  | idx :: rest =>
      match fill_cell a idx with
      | Raise e => Raise e
      | Ok a' => pass rest a'
      end
  end.

Definition any_nan (a : Np.ndarray cell) : bool := existsb is_nan (Np.flat a).

(** the [while] loop; [None] when the given number of trips does not
    bring it to its end *)
Fixpoint fill_loop (fuel : nat) (mask_idx : list (list nat))
    (a : Np.ndarray cell) : option (outcome (Np.ndarray cell)) :=
  if any_nan a then
    match fuel with
    | 0 => None
    | S fuel' =>
        match pass mask_idx a with
        | Raise e => Some (Raise e)
        | Ok a' => fill_loop fuel' mask_idx a'
        end
    end
  else Some (Ok a).

(** lines 916-917: the working copy, NaN where [mask == 1] *)
Definition blank_masked (image : Np.ndarray cell) (mask : Np.ndarray Z)
    : outcome (Np.ndarray cell) :=
  if decide (Np.shape mask = Np.shape image)
  then Ok (Np.mk_nd (Np.shape image)
             (zip_with (fun v m => if (m =? 1)%Z then None else v)
                (Np.flat image) (Np.flat mask)))
  else Raise IndexError.

Definition fill_mask (fuel : nat) (image : Np.ndarray cell) (mask : Np.ndarray Z)
    : option (outcome (Np.ndarray cell)) :=
  match blank_masked image mask with
  | Raise e => Some (Raise e)
  | Ok image_filled => fill_loop fuel (argwhere_pos mask) image_filled
  end.

End Fill.

(** ** A reference instance of the astropy and reproject routines

    Unit pixel scale and no rotation: a mapping sends the 0-based pixel [p]
    to the world point [crval + (p + 1 - crpix)] on every axis. It serves to
    run the routines above on concrete exposures. *)

Module Unit.

Definition pixel_to_world (w : WCS) (p : list Q) : list Q :=
  zip_with Qplus (crval w)
    (zip_with (fun x c => x + 1 - c)%Q p (crpix w)).

Definition world_to_pixel (w : WCS) (s : list Q) : list Q :=
  zip_with (fun d c => d + c - 1)%Q
    (zip_with Qminus s (crval w)) (crpix w).

Definition pixel_to_pixel (wcs_in wcs_out : WCS) (p : list Q)
    : outcome (list Q) :=
  if decide (length p = naxis wcs_in ∧ naxis wcs_in = naxis wcs_out)
  then Ok (Qred <$> world_to_pixel wcs_out (pixel_to_world wcs_in p))
  else Raise (ValueError "number of pixel dimensions").

Definition pixel_to_skycoord (x y : Q) (w : WCS) : outcome (Q * Q) :=
  match pixel_to_world w [x; y] with
  | [ra; dec] => Ok (Qred ra, Qred dec)
  | _ => Raise (ValueError "WCS should contain celestial component")
  end.

Definition celestial (w : WCS) : WCS :=
  mk_wcs 2 (take 2 (crpix w)) (take 2 (crval w)) (cd w) (pc w)
    (reverse (take 2 (reverse (array_shape w)))).

Definition axis_keys (prefix : string) (n : nat) : list string :=
  take n ((fun d => prefix +:+ d) <$> ["1"; "2"; "3"; "4"]).

Definition header_nums (header : Header) (keys : list string) : outcome (list Q) :=
  foldr (fun k acc =>
           match header_num header k, acc with
           | Ok q, Ok l => Ok (q :: l)
           | Raise e, _ => Raise e
           | _, Raise e => Raise e
           end) (Ok []) keys.

(** [WCS(header)]: the axis count from NAXIS, the reference pixel and
    value from CRPIXi and CRVALi, the grid from NAXISi *)
Definition WCS_of_header (header : Header) : outcome WCS :=
  match header_num header "NAXIS" with
  | Raise e => Raise e
  | Ok n =>
      let n := Z.to_nat (Qfloor n) in
      match header_nums header (axis_keys "CRPIX" n),
            header_nums header (axis_keys "CRVAL" n),
            header_nums header (axis_keys "NAXIS" n) with
      | Ok cp, Ok cv, Ok sz =>
          Ok (mk_wcs n cp cv
                (match header_num header "CD1_1" with
                 | Ok _ => Some ((fun i => (fun j => if Nat.eqb i j then 1%Q else 0%Q)
                                             <$> seq 0 n) <$> seq 0 n)
                 | Raise _ => None
                 end)
                (Some ((fun i => (fun j => if Nat.eqb i j then 1%Q else 0%Q)
                                   <$> seq 0 n) <$> seq 0 n))
                (reverse (Qfloor <$> sz)))
      | Raise e, _, _ => Raise e
      | _, Raise e, _ => Raise e
      | _, _, Raise e => Raise e
      end
  end.

Definition to_header (w : WCS) : Header :=
  list_to_map
    (zip (axis_keys "CRPIX" (naxis w)) (HNum <$> crpix w) ++
     zip (axis_keys "CRVAL" (naxis w)) (HNum <$> crval w)).

Definition sigma_clip_5 (m : masked) (sigma : Q) : outcome masked := Ok m.

Definition subtract_channel_median (m : masked) : outcome masked := Ok m.

(** resampling between grids that coincide: the array itself; nothing of
    an exposure lands on a grid of another shape *)
Definition reproject_adaptive (a : Np.ndarray Q) (wcs_in wcs_out : WCS)
    (shape_out : list nat) (conserve_flux : bool)
    : outcome (Np.ndarray Q * Np.ndarray Q) :=
  if decide (Np.shape a = shape_out)
  then Ok (a, Np.full shape_out 1%Q)
  else Ok (Np.full shape_out 0%Q, Np.full shape_out 0%Q).

Definition world0 : World := mk_world [] [] [] 0 [] [].

End Unit.

(** ** Sample exposures *)

Module Sample.

Definition data_header (nchan : Z) : Header :=
  list_to_map
    [("NAXIS", HNum 3); ("NAXIS1", HNum 2); ("NAXIS2", HNum 2);
     ("NAXIS3", HNum (inject_Z nchan));
     ("CRPIX1", HNum 1); ("CRPIX2", HNum 1); ("CRPIX3", HNum 1);
     ("CRVAL1", HNum 10); ("CRVAL2", HNum 20); ("CRVAL3", HNum 2);
     ("CD1_1", HNum (1 # 3600)); ("CD2_2", HNum (1 # 1800)); ("CD3_3", HNum 1);
     ("CUNIT3", HStr "MICRON")]%Q.

Definition primary_header (arc : string) (ra dec : Q) : Header :=
  list_to_map
    [("NAXIS", HNum 0%Q); ("ARCFILE", HStr arc);
     ("HIERARCH ESO OCS CUMOFFS RA", HNum ra);
     ("HIERARCH ESO OCS CUMOFFS DEC", HNum dec)].

(** a cube of [nchan] channels of 2 x 2 pixels, every pixel [v], none bad *)
Definition exposure (arc : string) (ra dec : Q) (nchan : nat) (v : Q) : FitsFile :=
  list_to_map
    [("Primary", mk_hdu (primary_header arc ra dec) (Np.mk_nd [] []));
     ("DATA", mk_hdu (data_header (Z.of_nat nchan)) (Np.full [nchan; 2; 2] v));
     ("DQI", mk_hdu ∅ (Np.full [nchan; 2; 2] 0%Q))].

(** a file whose data unit is a 1-D spectrum *)
Definition spectrum : FitsFile :=
  list_to_map
    [("DATA", mk_hdu (list_to_map
                        [("NAXIS", HNum 1); ("NAXIS1", HNum 4);
                         ("CRPIX1", HNum 1); ("CRVAL1", HNum 2)]%Q)
                (Np.full [4] 1%Q));
     ("DQI", mk_hdu ∅ (Np.full [4] 0%Q))].

Definition image (cx cy : Q) (size_y size_x : Z) : WCS :=
  mk_wcs 2 [cx; cy] [10%Q; 20%Q] None None [size_y; size_x].

Definition cube (cx cy : Q) (nchan size_y size_x : Z)
    (cd pc : option (list (list Q))) : WCS :=
  mk_wcs 3 [cx; cy; 1%Q] [10%Q; 20%Q; 2%Q] cd pc [nchan; size_y; size_x].

Definition store (objects : list WCS) : World := mk_world objects [] [] 0 [] [].

Definition ra_key : string := "HIERARCH ESO OCS CUMOFFS RA".
Definition dec_key : string := "HIERARCH ESO OCS CUMOFFS DEC".

End Sample.

(** * Properties *)

(** ** The monad *)

Lemma bind_ok {A B} (m : M A) (k : A -> M B) w w' a :
  m w = (w', Ok a) -> bind m k w = k a w'.
Proof. unfold bind. intros ->. reflexivity. Qed.

Lemma bind_raise {A B} (m : M A) (k : A -> M B) w w' e :
  m w = (w', Raise e) -> bind m k w = (w', Raise e).
Proof. unfold bind. intros ->. reflexivity. Qed.

Lemma bind_inv_ok {A B} (m : M A) (k : A -> M B) w w2 b :
  bind m k w = (w2, Ok b) ->
  exists w1 a, m w = (w1, Ok a) /\ k a w1 = (w2, Ok b).
Proof.
  unfold bind. destruct (m w) as [w1 [a|e]]; intros H.
  - exists w1, a. split; [reflexivity | exact H].
  - discriminate H.
Qed.

Ltac monad_unfold := unfold bind, ret, raise, lift in *.

(** ** Channel reconciliation *)

Section Reconcile.

Lemma size_of_cons d rest : Np.size_of (d :: rest) = d * Np.size_of rest.
Proof. reflexivity. Qed.

Lemma drop_replicate_length {A} (x : A) (n m : nat) :
  drop n (replicate m x) = replicate (m - n) x.
Proof. apply drop_replicate. Qed.

Lemma assign_prefix_full (d0 target : nat) (rest : list nat) (a : Np.ndarray Q) :
  Np.shape a = d0 :: rest -> Np.well_formed a -> d0 ≤ target ->
  Np.assign_prefix (Np.full (target :: rest) 0%Q) a =
  Some (Np.mk_nd (target :: rest)
          (Np.flat a ++ replicate ((target - d0) * Np.size_of rest) 0%Q)).
Proof.
  intros Hsh Hwf Hle. unfold Np.assign_prefix, Np.full. simpl Np.shape.
  rewrite Hsh. rewrite decide_True by (split; [reflexivity | exact Hle]).
  simpl Np.flat. rewrite drop_replicate.
  unfold Np.well_formed in Hwf. rewrite Hwf, Hsh, !size_of_cons.
  rewrite <- Nat.mul_sub_distr_r. reflexivity.
Qed.

End Reconcile.

(** C5. A cube whose channel count differs from the target is cut to the
    target count when it is longer, and otherwise extended with zero data
    and zero (good) mask up to the target count; the two spatial extents
    stay as they were. A warning is logged exactly when the counts differ. *)
Theorem reconcile_channels_spec
    (target d0 ny nx : nat) (others : list nat) (data mask : Np.ndarray Q) (w : World) :
  Np.shape data = [d0; ny; nx] ->
  Np.shape mask = [d0; ny; nx] ->
  Np.well_formed data ->
  Np.well_formed mask ->
  exists data' mask',
    reconcile_channels (target :: others) data mask w =
      ((if decide (d0 = target) then w
        else mk_world (heap w) (stdout w)
               (warnings w ++ ["Combining data with different channels!"])
               (reprojections w) (written w) (resampled_masks w)),
       Ok (data', mask')) /\
    Np.shape data' = [target; ny; nx] /\
    Np.shape mask' = [target; ny; nx] /\
    (target ≤ d0 ->
       Np.flat data' = take (target * (ny * nx)) (Np.flat data) /\
       Np.flat mask' = take (target * (ny * nx)) (Np.flat mask)) /\
    (d0 < target ->
       Np.flat data' = Np.flat data ++ replicate ((target - d0) * (ny * nx)) 0%Q /\
       Np.flat mask' = Np.flat mask ++ replicate ((target - d0) * (ny * nx)) 0%Q).
Proof.
  intros Hd Hm Wd Wm.
  assert (Hsz : Np.size_of [ny; nx] = ny * nx) by (simpl; lia).
  unfold reconcile_channels.
  rewrite decide_True by (unfold Np.ndim; rewrite Hd; reflexivity).
  unfold Np.len. rewrite Hd. simpl lookup.
  destruct (decide (target ≤ d0)) as [Hle | Hgt].
  - exists (Np.mk_nd [target; ny; nx] (take (target * (ny * nx)) (Np.flat data))),
      (Np.mk_nd [target; ny; nx] (take (target * (ny * nx)) (Np.flat mask))).
    split; [| split; [reflexivity | split; [reflexivity | split; [auto | intros ?; lia]]]].
    monad_unfold. unfold logging_warning, Np.take0. rewrite Hd, Hm, Hsz.
    cbn [from_option]. rewrite Nat.min_l by lia.
    repeat case_decide; try congruence; try lia; reflexivity.
  - assert (Hlt : d0 ≤ target) by lia.
    pose proof (assign_prefix_full d0 target [ny; nx] data Hd Wd Hlt) as Ed.
    pose proof (assign_prefix_full d0 target [ny; nx] mask Hm Wm Hlt) as Em.
    rewrite Hsz in Ed, Em.
    exists (Np.mk_nd [target; ny; nx]
              (Np.flat data ++ replicate ((target - d0) * (ny * nx)) 0%Q)),
      (Np.mk_nd [target; ny; nx]
         (Np.flat mask ++ replicate ((target - d0) * (ny * nx)) 0%Q)).
    split; [| split; [reflexivity | split; [reflexivity | split; [intros ?; lia | intros _; split; reflexivity]]]].
    monad_unfold. unfold logging_warning. cbn [from_option tail].
    rewrite Ed, Em. cbn [from_option].
    repeat case_decide; try congruence; try lia; reflexivity.
Qed.

(** A 10-channel cube against a 12-channel target. *)
Lemma reconcile_channels_spec_witness :
  exists data' mask',
    reconcile_channels [12; 2; 2] (Np.full [10; 2; 2] 5%Q) (Np.full [10; 2; 2] 1%Q)
      Unit.world0 =
      (mk_world [] [] ["Combining data with different channels!"] 0 [] [],
       Ok (data', mask')) /\
    Np.shape data' = [12; 2; 2] /\
    Np.flat data' = replicate 40 5%Q ++ replicate 8 0%Q /\
    Np.flat mask' = replicate 40 1%Q ++ replicate 8 0%Q.
Proof.
  destruct (reconcile_channels_spec 12 10 2 2 [2; 2]
              (Np.full [10; 2; 2] 5%Q) (Np.full [10; 2; 2] 1%Q) Unit.world0
              eq_refl eq_refl eq_refl eq_refl)
    as (d & m & E & Sd & _ & _ & Hpad).
  exists d, m. destruct Hpad as [Fd Fm]; [lia |].
  split; [exact E | split; [exact Sd | split; [exact Fd | exact Fm]]].
Defined.

(** ** Effects that leave the reprojection count, the written files and
       the resampled masks alone *)

Definition quiet {A} (m : M A) : Prop :=
  forall w, reprojections (fst (m w)) = reprojections w /\
            written (fst (m w)) = written w /\
            resampled_masks (fst (m w)) = resampled_masks w.

Lemma quiet_ret {A} (a : A) : quiet (ret a).
Proof. intros w. repeat split; reflexivity. Qed.

Lemma quiet_raise {A} (e : exn) : quiet (@raise A e).
Proof. intros w. repeat split; reflexivity. Qed.

Lemma quiet_lift {A} (o : outcome A) : quiet (lift o).
Proof. intros w. repeat split; reflexivity. Qed.

Lemma quiet_deref r : quiet (deref r).
Proof. intros w. repeat split; reflexivity. Qed.

Lemma quiet_alloc o : quiet (alloc o).
Proof. intros w. repeat split; reflexivity. Qed.

Lemma quiet_update_obj r f : quiet (update_obj r f).
Proof.
  intros w. unfold update_obj. destruct (heap w !! r); repeat split; reflexivity.
Qed.

Lemma quiet_bind {A B} (m : M A) (k : A -> M B) :
  quiet m -> (forall a, quiet (k a)) -> quiet (bind m k).
Proof.
  intros Hm Hk w. unfold bind. specialize (Hm w).
  destruct (m w) as [w1 [a | e]]; simpl in Hm.
  - destruct (Hk a w1) as (H1 & H2 & H5). destruct Hm as (H3 & H4 & H6).
    repeat split; congruence.
  - exact Hm.
Qed.

Ltac quiet_step :=
  first [ apply quiet_bind; [| intros ?]
        | apply quiet_ret | apply quiet_raise | apply quiet_lift
        | apply quiet_deref | apply quiet_alloc | apply quiet_update_obj ].

Section CombinedFrameEffects.

Variable WCS_of_header : Header -> outcome WCS.
Variable pixel_to_pixel : WCS -> WCS -> list Q -> outcome (list Q).
Variable pixel_to_skycoord : Q -> Q -> WCS -> outcome (Q * Q).

Lemma quiet_wcs_of_images ext images acc :
  quiet (wcs_of_images WCS_of_header ext images acc).
Proof.
  revert acc. induction images as [| fi rest IH]; intros acc; simpl.
  - apply quiet_ret.
  - repeat quiet_step. apply IH.
Qed.

Lemma quiet_convert_corners r f coords acc :
  quiet (convert_corners pixel_to_pixel r f coords acc).
Proof.
  revert acc. induction coords as [| c rest IH]; intros acc; simpl.
  - apply quiet_ret.
  - repeat quiet_step. apply IH.
Qed.

Lemma quiet_collect_corners f coords ps i refs acc :
  quiet (collect_corners pixel_to_pixel f coords ps i refs acc).
Proof.
  revert i acc. induction refs as [| r rest IH]; intros i acc; simpl.
  - apply quiet_ret.
  - apply quiet_bind.
    + destruct ps; repeat quiet_step.
    + intros _. apply quiet_bind; [apply quiet_convert_corners |].
      intros ?. apply IH.
Qed.

Lemma quiet_find_combined_wcs images refs ext ps :
  quiet (find_combined_wcs WCS_of_header pixel_to_pixel pixel_to_skycoord
           images refs ext ps).
Proof.
  unfold find_combined_wcs.
  apply quiet_bind.
  { destruct images; [apply quiet_wcs_of_images | apply quiet_lift]. }
  intros wl. apply quiet_bind.
  { unfold check_shift_count. destruct ps; [case_decide |]; quiet_step. }
  intros _. repeat (apply quiet_bind; [first [apply quiet_collect_corners | quiet_step] | intros ?]).
  destruct (take 2 _) as [| ? [| ? [| ? ?]]]; repeat quiet_step.
Qed.

End CombinedFrameEffects.

(** ** What the corner loop may change of an object: its reference pixel *)

Definition same_frame (o o' : WCS) : Prop :=
  naxis o' = naxis o /\ crval o' = crval o /\ cd o' = cd o /\ pc o' = pc o /\
  array_shape o' = array_shape o.

Definition keeps_frames {A} (m : M A) : Prop :=
  forall w r o, heap w !! r = Some o ->
    exists o', heap (fst (m w)) !! r = Some o' /\ same_frame o o'.

Lemma same_frame_refl o : same_frame o o.
Proof. repeat split. Qed.

Lemma same_frame_trans o1 o2 o3 :
  same_frame o1 o2 -> same_frame o2 o3 -> same_frame o1 o3.
Proof. unfold same_frame. intuition congruence. Qed.

Lemma keeps_frames_pure {A} (m : M A) :
  (forall w, fst (m w) = w) -> keeps_frames m.
Proof.
  intros H w r o Hr. rewrite H. exists o. split; [exact Hr | apply same_frame_refl].
Qed.

Lemma keeps_frames_bind {A B} (m : M A) (k : A -> M B) :
  keeps_frames m -> (forall a, keeps_frames (k a)) -> keeps_frames (bind m k).
Proof.
  intros Hm Hk w r o Hr. unfold bind. destruct (Hm w r o Hr) as (o1 & H1 & F1).
  destruct (m w) as [w1 [a | e]]; simpl in H1.
  - destruct (Hk a w1 r o1 H1) as (o2 & H2 & F2).
    exists o2. split; [exact H2 | eapply same_frame_trans; eassumption].
  - exists o1. split; [exact H1 | exact F1].
Qed.

Lemma keeps_frames_set_crpix r' v_of :
  keeps_frames (update_obj r' (fun o => set_crpix o (v_of o))).
Proof.
  intros w r o Hr. unfold update_obj.
  destruct (heap w !! r') as [o0 |] eqn:E; simpl.
  - destruct (decide (r' = r)) as [-> | Hne].
    + rewrite list_lookup_insert_eq by (eapply lookup_lt_Some; eassumption).
      eexists. split; [reflexivity |].
      simplify_eq. repeat split.
    + rewrite list_lookup_insert_ne by exact Hne.
      exists o. split; [exact Hr | apply same_frame_refl].
  - exists o. split; [exact Hr | apply same_frame_refl].
Qed.

Ltac frames_step :=
  first [ apply keeps_frames_bind; [| intros ?]
        | apply keeps_frames_pure; intros ?; reflexivity ].

Section CombinedFrameFrames.

Variable pixel_to_pixel : WCS -> WCS -> list Q -> outcome (list Q).

Lemma keeps_frames_convert_corners r f coords acc :
  keeps_frames (convert_corners pixel_to_pixel r f coords acc).
Proof.
  revert acc. induction coords as [| c rest IH]; intros acc; simpl.
  - frames_step.
  - repeat frames_step. apply IH.
Qed.

Lemma keeps_frames_collect_corners f coords ps i refs acc :
  keeps_frames (collect_corners pixel_to_pixel f coords ps i refs acc).
Proof.
  revert i acc. induction refs as [| r rest IH]; intros i acc; simpl.
  - frames_step.
  - apply keeps_frames_bind.
    + destruct ps; [| frames_step].
      repeat frames_step.
      apply (keeps_frames_set_crpix r (fun _ => a1)).
    + intros _. apply keeps_frames_bind; [apply keeps_frames_convert_corners |].
      intros ?. apply IH.
Qed.

End CombinedFrameFrames.

(** ** [data_combine]: validation, the shifts, and the return value *)

Section DataCombineProps.

Variable WCS_of_header : Header -> outcome WCS.
Variable pixel_to_pixel : WCS -> WCS -> list Q -> outcome (list Q).
Variable pixel_to_skycoord : Q -> Q -> WCS -> outcome (Q * Q).
Variable celestial : WCS -> WCS.
Variable to_header : WCS -> Header.
Variable sigma_clip_5 : masked -> Q -> outcome masked.
Variable subtract_channel_median : masked -> outcome masked.
Variable reproject_adaptive :
  Np.ndarray Q -> WCS -> WCS -> list nat -> bool ->
  outcome (Np.ndarray Q * Np.ndarray Q).

Local Abbreviation find_wcs :=
  (find_combined_wcs WCS_of_header pixel_to_pixel pixel_to_skycoord).
Local Abbreviation resolve := (resolve_wcs_list WCS_of_header).
Local Abbreviation accumulate :=
  (accumulate_exposures WCS_of_header pixel_to_pixel pixel_to_skycoord
     celestial sigma_clip_5 subtract_channel_median reproject_adaptive).
Local Abbreviation combine :=
  (data_combine WCS_of_header pixel_to_pixel pixel_to_skycoord
     celestial to_header sigma_clip_5 subtract_channel_median
     reproject_adaptive).

Lemma quiet_read_wcs_list ext images acc h :
  quiet (read_wcs_list WCS_of_header ext images acc h).
Proof.
  revert acc h. induction images as [| fi rest IH]; intros acc h; simpl.
  - apply quiet_ret.
  - repeat quiet_step. apply IH.
Qed.

Lemma quiet_shifted_mock_list wm ps i n acc :
  quiet (shifted_mock_list wm ps i n acc).
Proof.
  revert i acc. induction n as [| n IH]; intros i acc; simpl.
  - apply quiet_ret.
  - quiet_step; [quiet_step |].
    repeat case_match; try quiet_step; try apply IH; quiet_step.
Qed.

Lemma quiet_resolve images ext ps ignore :
  quiet (resolve images ext ps ignore).
Proof.
  unfold resolve_wcs_list. destruct ignore.
  - repeat (quiet_step; [quiet_step |]).
    destruct (WCS_of_header _); [| quiet_step].
    destruct ps; repeat quiet_step. apply quiet_shifted_mock_list.
  - apply quiet_read_wcs_list.
Qed.

(** The shifts play no part in resolving the mappings when the mappings
    of the files are used. *)
Lemma resolve_native_ignores_shifts images ext ps :
  resolve images ext ps false = resolve images ext None false.
Proof. reflexivity. Qed.

Lemma accumulate_native_shifts images data_ext mask_ext ps sc sigma bgsub hext wt w :
  accumulate images data_ext mask_ext (Some ps) false sc sigma bgsub hext wt w =
  if decide (Np.len ps = length images)
  then accumulate images data_ext mask_ext None false sc sigma bgsub hext wt w
  else (w, Raise (ValueError "Pixel_shift does not match the number of images!")).
Proof.
  unfold accumulate_exposures, check_shift_count.
  destruct (decide (Np.len ps = length images)) as [E | NE].
  - rewrite decide_False by (intros H; exact (H E)). reflexivity.
  - rewrite decide_True by exact NE. reflexivity.
Qed.

End DataCombineProps.

(** C4. With [ignore_wcs] false the shifts are only checked for their
    length: a call with shifts of the right length is the call without
    shifts, whatever the shifts are, and a call with shifts of another
    length raises the validation error and changes nothing. *)
Theorem data_combine_native_ignores_pixel_shifts
    (WCS_of_header : Header -> outcome WCS)
    (pixel_to_pixel : WCS -> WCS -> list Q -> outcome (list Q))
    (pixel_to_skycoord : Q -> Q -> WCS -> outcome (Q * Q))
    (celestial : WCS -> WCS) (to_header : WCS -> Header)
    (sigma_clip_5 : masked -> Q -> outcome masked)
    (subtract_channel_median : masked -> outcome masked)
    (reproject_adaptive :
       Np.ndarray Q -> WCS -> WCS -> list nat -> bool ->
       outcome (Np.ndarray Q * Np.ndarray Q))
    (image_list : list FitsFile) (data_ext : string) (mask_ext : option string)
    (pixel_shifts : Np.ndarray Q) (sigma_clip : bool) (sigma : Q) (bgsub : bool)
    (header_ext : option string) (weighting : option (list Q))
    (savefile : option string) (w : World) :
  data_combine WCS_of_header pixel_to_pixel pixel_to_skycoord celestial to_header
    sigma_clip_5 subtract_channel_median reproject_adaptive
    image_list data_ext mask_ext (Some pixel_shifts) false
    sigma_clip sigma bgsub header_ext weighting savefile w =
  if decide (Np.len pixel_shifts = length image_list)
  then
    data_combine WCS_of_header pixel_to_pixel pixel_to_skycoord celestial to_header
      sigma_clip_5 subtract_channel_median reproject_adaptive
      image_list data_ext mask_ext None false
      sigma_clip sigma bgsub header_ext weighting savefile w
  else (w, Raise (ValueError "Pixel_shift does not match the number of images!")).
Proof.
  unfold data_combine, bind at 1.
  rewrite accumulate_native_shifts.
  destruct (decide (Np.len pixel_shifts = length image_list)); reflexivity.
Qed.

Section Validation.

Variable WCS_of_header : Header -> outcome WCS.
Variable pixel_to_pixel : WCS -> WCS -> list Q -> outcome (list Q).
Variable pixel_to_skycoord : Q -> Q -> WCS -> outcome (Q * Q).
Variable celestial : WCS -> WCS.
Variable to_header : WCS -> Header.
Variable sigma_clip_5 : masked -> Q -> outcome masked.
Variable subtract_channel_median : masked -> outcome masked.
Variable reproject_adaptive :
  Np.ndarray Q -> WCS -> WCS -> list nat -> bool ->
  outcome (Np.ndarray Q * Np.ndarray Q).

Local Abbreviation find_wcs :=
  (find_combined_wcs WCS_of_header pixel_to_pixel pixel_to_skycoord).
Local Abbreviation combine :=
  (data_combine WCS_of_header pixel_to_pixel pixel_to_skycoord
     celestial to_header sigma_clip_5 subtract_channel_median
     reproject_adaptive).

Definition shifts_fit (ps : option (Np.ndarray Q)) (n : nat) : Prop :=
  match ps with
  | Some p => Np.len p = n
  | None => True
  end.

Lemma check_shift_count_ok ps n msg w :
  shifts_fit ps n -> check_shift_count ps n msg w = (w, Ok tt).
Proof.
  intros Hfit. unfold check_shift_count. destruct ps as [p |]; [| reflexivity].
  simpl in Hfit. rewrite decide_False by (intros H; exact (H Hfit)). reflexivity.
Qed.











End Validation.


(** A 2-D frame 0 followed by a 1-D mapping. The dimensionality of the
    second mapping is read nowhere: with a conversion that accepts any
    pair of frames the solver answers with a mapping, and with the
    reference conversion, which refuses frames of different axis counts,
    the call ends in the error of that conversion and not in the error of
    the dimensionality check. *)
Lemma validation_skips_later_mappings :
  find_combined_wcs Unit.WCS_of_header (fun _ _ p => Ok p) Unit.pixel_to_skycoord
    None (Some [0; 1]) "DATA" None
    (Sample.store [Sample.image 1 1 4 4; mk_wcs 1 [1%Q] [2%Q] None None [4%Z]]) =
  (Sample.store [Sample.image 1 1 4 4; mk_wcs 1 [1%Q] [2%Q] None None [4%Z]],
   Ok (mk_wcs 2 [1; 1]%Q [12; 22]%Q None None [4; 4]%Z))
  /\
  find_combined_wcs Unit.WCS_of_header Unit.pixel_to_pixel Unit.pixel_to_skycoord
    None (Some [0; 1]) "DATA" None
    (Sample.store [Sample.image 1 1 4 4; mk_wcs 1 [1%Q] [2%Q] None None [4%Z]]) =
  (Sample.store [Sample.image 1 1 4 4; mk_wcs 1 [1%Q] [2%Q] None None [4%Z]],
   Raise (ValueError "number of pixel dimensions")).
Proof. split; vm_compute; reflexivity. Qed.

(** ** [data_combine]: the value handed back *)

Section ReturnValue.

Variable WCS_of_header : Header -> outcome WCS.
Variable pixel_to_pixel : WCS -> WCS -> list Q -> outcome (list Q).
Variable pixel_to_skycoord : Q -> Q -> WCS -> outcome (Q * Q).
Variable celestial : WCS -> WCS.
Variable to_header : WCS -> Header.
Variable sigma_clip_5 : masked -> Q -> outcome masked.
Variable subtract_channel_median : masked -> outcome masked.
Variable reproject_adaptive :
  Np.ndarray Q -> WCS -> WCS -> list nat -> bool ->
  outcome (Np.ndarray Q * Np.ndarray Q).

(** Without a save path no call hands back a value: the [return] statement
    names [error_combined], which is bound nowhere. *)
Lemma data_combine_without_savefile_never_returns
    images dext mext ps ig sc sg bg hext wt w :
  exists w' e,
    data_combine WCS_of_header pixel_to_pixel pixel_to_skycoord celestial
      to_header sigma_clip_5 subtract_channel_median reproject_adaptive
      images dext mext ps ig sc sg bg hext wt None w = (w', Raise e).
Proof.
  unfold data_combine, bind.
  destruct (accumulate_exposures _ _ _ _ _ _ _ _ _ _ _ _ _ _ _ _ _ w)
    as [w1 [[[wcs hdr] [d c]] | e]]; [| eauto].
  unfold lift, raise.
  destruct (from_option _ (Np.zip_with Qdiv d c)); eauto.
Qed.

End ReturnValue.

(** C9 (the code departs from it). Two good two-channel cubes combine
    without a fault, four resamplings are made, and with no save path the
    call ends in [NameError: error_combined] instead of handing back the
    combined array; nothing is written either. *)
Theorem data_combine_return_raises_NameError :
  let run :=
    data_combine Unit.WCS_of_header Unit.pixel_to_pixel Unit.pixel_to_skycoord
      Unit.celestial Unit.to_header Unit.sigma_clip_5 Unit.subtract_channel_median
      Unit.reproject_adaptive
      [Sample.exposure "a" 0 0 2 1; Sample.exposure "b" 1 0 2 3] "DATA" (Some "DQI")
      None false true 3 true None None None Unit.world0 in
  snd run = Raise (NameError "error_combined") /\
  reprojections (fst run) = 4 /\ written (fst run) = [].
Proof. vm_compute. repeat split. Qed.

Lemma lift_inv_ok {A} (o : outcome A) w w' a :
  lift o w = (w', Ok a) -> w' = w /\ o = Ok a.
Proof. unfold lift. intros [= -> ->]. split; reflexivity. Qed.

(** ** [compute_eris_offset] *)

(** what the loop reads of one exposure *)
Record offset_fields : Type := mk_fields {
  f_arcfile : hval;
  f_ra : Q;
  f_dec : Q;
  f_cd1 : Q;
  f_cd2 : Q
}.

Definition exposure_fields (header_ext header_ext_data ra_key dec_key : string)
    (img : FitsFile) : option offset_fields :=
  match img !! header_ext, img !! header_ext_data with
  | Some hdu, Some dhdu =>
      match hdu_header hdu !! "ARCFILE",
            header_num (hdu_header hdu) ra_key,
            header_num (hdu_header hdu) dec_key,
            header_num (hdu_header dhdu) "CD1_1",
            header_num (hdu_header dhdu) "CD2_2" with
      | Some a, Ok ra, Ok dec, Ok c1, Ok c2 => Some (mk_fields a ra dec c1 c2)
      | _, _, _, _, _ => None
      end
  | _, _ => None
  end.

(** the pointing offset relative to [zero], in pixels of the exposure itself *)
Definition ocs_offset (zero : Q * Q) (f : offset_fields) : Q * Q :=
  ((f_ra f - fst zero) / Num.qabs (f_cd1 f * 3600),
   (f_dec f - snd zero) / Num.qabs (f_cd2 f * 3600))%Q.

Definition zero_point (fs : list offset_fields) : Q * Q :=
  match fs with
  | f0 :: _ => (f_ra f0, f_dec f0)
  | [] => (0, 0)%Q
  end.

(** the drift the table gives an archive identifier *)
Definition table_drift (dat : list drift_row) (arcfile : hval) : Q * Q :=
  match filter (fun r => arcfile_matches arcfile r = true) dat with
  | [r] => (x_model r - fst pixel_center, y_model r - snd pixel_center)%Q
  | _ => (0, 0)%Q
  end.

Definition table_hit (dat : list drift_row) (arcfile : hval) : bool :=
  match filter (fun r => arcfile_matches arcfile r = true) dat with
  | [r] => true
  | _ => false
  end.

Definition drift_messages (dat : list drift_row) (arcfiles : list hval)
    : list string :=
  arcfile ← arcfiles;
  if table_hit dat arcfile then [] else ["Drifts not found!"].

Definition add2 (a b : Q * Q) : Q * Q := (fst a + fst b, snd a + snd b)%Q.

Definition expected_offsets (fs : list offset_fields)
    (additional_drifts : option drifts_arg) : list (Q * Q) :=
  let ocs := ocs_offset (zero_point fs) <$> fs in
  match additional_drifts with
  | None => ocs
  | Some (DriftArray a) => zip_with add2 ocs a
  | Some (DriftTable dat) => zip_with add2 ocs (table_drift dat <$> (f_arcfile <$> fs))
  end.

Definition expected_stdout (fs : list offset_fields)
    (additional_drifts : option drifts_arg) : list string :=
  [">>>>>>>>\nOCS offset:"; "array_offset"] ++
  match additional_drifts with
  | Some (DriftTable dat) =>
      drift_messages dat (f_arcfile <$> fs) ++
      ["++++++++\n additional difts:"; "additional_drifts"]
  | _ => []
  end.

Definition add_stdout (w : World) (l : list string) : World :=
  mk_world (heap w) (stdout w ++ l) (warnings w) (reprojections w) (written w)
    (resampled_masks w).

Lemma add_stdout_nil w : add_stdout w [] = w.
Proof. destruct w. unfold add_stdout. simpl. rewrite app_nil_r. reflexivity. Qed.

Lemma add_stdout_app w a b : add_stdout (add_stdout w a) b = add_stdout w (a ++ b).
Proof. unfold add_stdout. simpl. rewrite app_assoc. reflexivity. Qed.

Lemma print_eq s w : print s w = (add_stdout w [s], Ok tt).
Proof. reflexivity. Qed.

Lemma read_eris_drifts_loop_spec dat arcfiles acc w :
  read_eris_drifts_loop dat arcfiles acc w =
  (add_stdout w (drift_messages dat arcfiles),
   Ok (acc ++ (table_drift dat <$> arcfiles))).
Proof.
  revert acc w. induction arcfiles as [| a rest IH]; intros acc w.
  - simpl. rewrite add_stdout_nil, app_nil_r. reflexivity.
  - cbn [read_eris_drifts_loop fmap list_fmap].
    unfold drift_messages. cbn [mbind list_bind].
    fold (drift_messages dat rest).
    unfold table_drift at 1, table_hit at 1.
    destruct (filter _ dat) as [| r [| r' l]].
    + unfold bind. rewrite print_eq, IH, add_stdout_app, <- app_assoc. reflexivity.
    + rewrite IH, <- app_assoc. reflexivity.
    + unfold bind. rewrite print_eq, IH, add_stdout_app, <- app_assoc. reflexivity.
Qed.

Lemma add_drifts_spec offs a i :
  i + length offs ≤ length a ->
  add_drifts i offs a = Ok (zip_with add2 offs (drop i a)).
Proof.
  revert i. induction offs as [| [x y] rest IH]; intros i Hlen.
  - reflexivity.
  - simpl in Hlen. cbn [add_drifts].
    destruct (a !! i) as [[dx dy] |] eqn:E.
    + rewrite IH by lia.
      rewrite (drop_S a (dx, dy) i E). reflexivity.
    + apply lookup_ge_None in E. lia.
Qed.

Lemma scale_nonzero (c : Q) :
  ~ (c == 0)%Q -> Num.q_eqb (Num.qabs (c * 3600)) 0 = false.
Proof.
  intros Hc. unfold Num.q_eqb, Num.qabs.
  destruct (Qeq_bool (Qabs (c * 3600)) 0) eqn:E; [| reflexivity].
  exfalso. apply Qeq_bool_eq in E. apply Hc.
  assert (H0 : (c * 3600 == 0)%Q).
  { revert E. apply Qabs_case; intros _ E; lra. }
  lra.
Qed.

Section OffsetEstimatorProps.

Variable WCS_of_header : Header -> outcome WCS.
Variables header_ext header_ext_data ra_key dec_key coord_system : string.

Local Abbreviation fields := (exposure_fields header_ext header_ext_data ra_key dec_key).
Local Abbreviation loop :=
  (offset_loop WCS_of_header header_ext header_ext_data ra_key dec_key coord_system).

(** an exposure the loop can read, with a pixel scale on both axes *)
Definition readable (img : FitsFile) (f : offset_fields) : Prop :=
  fields img = Some f /\ ~ (f_cd1 f == 0)%Q /\ ~ (f_cd2 f == 0)%Q.

(** [WCS(header)] of the first exposure succeeds when it is asked for *)
Definition first_wcs_ok (images : list FitsFile) : Prop :=
  coord_system = "sky" ->
  forall img hdu, images !! 0 = Some img -> img !! header_ext = Some hdu ->
    exists x, WCS_of_header (hdu_header hdu) = Ok x.

Lemma offset_loop_step img rest f zero arcs offs w :
  readable img f ->
  (zero = None -> first_wcs_ok [img]) ->
  loop (img :: rest) zero arcs offs w =
  loop rest (Some (default (f_ra f, f_dec f) zero))
    (arcs ++ [f_arcfile f])
    (offs ++ [ocs_offset (default (f_ra f, f_dec f) zero) f]) w.
Proof.
  intros (Hf & H1 & H2) Hw.
  unfold exposure_fields in Hf.
  destruct (img !! header_ext) as [hdu |] eqn:Eh; [| discriminate].
  destruct (img !! header_ext_data) as [dhdu |] eqn:Ed; [| discriminate].
  destruct (hdu_header hdu !! "ARCFILE") as [a |] eqn:Ea; [| discriminate].
  destruct (header_num (hdu_header hdu) ra_key) as [ra |] eqn:Era; [| discriminate].
  destruct (header_num (hdu_header hdu) dec_key) as [dec |] eqn:Edec; [| discriminate].
  destruct (header_num (hdu_header dhdu) "CD1_1") as [c1 |] eqn:E1; [| discriminate].
  destruct (header_num (hdu_header dhdu) "CD2_2") as [c2 |] eqn:E2; [| discriminate].
  injection Hf as <-. simpl in H1, H2.
  cbn [offset_loop]. unfold bind at 1, lift at 1. rewrite Eh. cbn [from_option].
  unfold bind at 1, lift at 1. rewrite Ed. cbn [from_option].
  unfold bind at 1, lift at 1. rewrite Ea. cbn [from_option].
  unfold bind at 1, lift at 1. rewrite Era.
  unfold bind at 1, lift at 1. rewrite Edec.
  unfold bind at 1, lift at 1. rewrite E1.
  unfold bind at 1, lift at 1. rewrite E2.
  unfold bind at 1.
  assert (Hz : (match zero with
                | Some z => ret z
                | None =>
                    (if decide (coord_system = "sky")
                     then _ <~ lift (WCS_of_header (hdu_header hdu));; ret ()
                     else ret ());;;
                    ret (ra, dec)
                end) w = (w, Ok (default (ra, dec) zero))).
  { destruct zero as [z |]; [reflexivity |]. simpl.
    destruct (decide (coord_system = "sky")) as [Hs | Hs]; [| reflexivity].
    destruct (Hw eq_refl Hs img hdu eq_refl Eh) as [x Hx].
    unfold bind, lift, ret. rewrite Hx. reflexivity. }
  rewrite Hz. cbn [f_ra f_dec f_cd1 f_cd2 f_arcfile].
  unfold bind at 1, lift at 1, py_div at 1.
  rewrite (scale_nonzero c1 H1).
  unfold bind at 1, lift at 1, py_div at 1.
  rewrite (scale_nonzero c2 H2).
  reflexivity.
Qed.

Lemma offset_loop_rest images fs z arcs offs w :
  Forall2 readable images fs ->
  loop images (Some z) arcs offs w =
  (w, Ok (arcs ++ (f_arcfile <$> fs), offs ++ (ocs_offset z <$> fs))).
Proof.
  intros H. revert arcs offs. induction H as [| img f rest fs' Hr _ IH];
    intros arcs offs.
  - simpl. rewrite !app_nil_r. reflexivity.
  - rewrite (offset_loop_step img rest f (Some z) arcs offs w Hr) by discriminate.
    simpl default. rewrite IH. rewrite <- !app_assoc. reflexivity.
Qed.

Lemma offset_loop_all images fs w :
  Forall2 readable images fs -> first_wcs_ok images ->
  loop images None [] [] w =
  (w, Ok (f_arcfile <$> fs, ocs_offset (zero_point fs) <$> fs)).
Proof.
  intros H Hw. destruct H as [| img f rest fs' Hr Hrest].
  - reflexivity.
  - rewrite (offset_loop_step img rest f None [] [] w Hr).
    + simpl default. rewrite (offset_loop_rest rest fs' _ _ _ w Hrest). reflexivity.
    + intros _ Hs img' hdu [= <-]. apply (Hw Hs img hdu eq_refl).
Qed.

(** C8, as the code has it. For exposures whose headers hold the fields
    read and whose CD1_1 and CD2_2 are not zero, [compute_eris_offset]
    returns one (dx, dy) per exposure: the reported offset minus that of
    exposure 0, divided per axis by the exposure's own pixel scale, plus
    the exposure's drift when drifts are supplied. So entry 0 is (0, 0)
    when no drifts are supplied and the drift of exposure 0 otherwise. With
    a drift table, an identifier that is not in exactly one row gets the
    drift (0, 0) and the message "Drifts not found!" is printed; the call
    does not fail. *)
Theorem compute_eris_offset_spec
    (images : list FitsFile) (fs : list offset_fields)
    (additional_drifts : option drifts_arg) (w : World) :
  Forall2 readable images fs ->
  first_wcs_ok images ->
  (forall a, additional_drifts = Some (DriftArray a) -> length images ≤ length a) ->
  compute_eris_offset WCS_of_header images additional_drifts
    header_ext header_ext_data ra_key dec_key coord_system w =
  (add_stdout w (expected_stdout fs additional_drifts),
   Ok (expected_offsets fs additional_drifts)) /\
  length (expected_offsets fs additional_drifts) = length images /\
  (additional_drifts = None ->
   forall x y, expected_offsets fs additional_drifts !! 0 = Some (x, y) ->
     (x == 0 /\ y == 0)%Q) /\
  (forall dat f, additional_drifts = Some (DriftTable dat) -> f ∈ fs ->
     table_hit dat (f_arcfile f) = false ->
     table_drift dat (f_arcfile f) = (0, 0)%Q /\
     "Drifts not found!" ∈ stdout (add_stdout w (expected_stdout fs additional_drifts))).
Proof.
  intros Hr Hw Hlen.
  pose proof (Forall2_length _ _ _ Hr) as Hl.
  split; [| split; [| split]].
  - unfold compute_eris_offset.
    erewrite bind_ok by (apply offset_loop_all; eassumption).
    cbv beta iota.
    unfold bind at 1. rewrite print_eq. unfold bind at 1. rewrite print_eq.
    rewrite add_stdout_app. unfold expected_stdout, expected_offsets.
    destruct additional_drifts as [[a | dat] |].
    + unfold bind, ret, lift. rewrite add_drifts_spec.
      * rewrite app_nil_r. reflexivity.
      * rewrite length_fmap. specialize (Hlen a eq_refl). lia.
    + unfold bind at 1. unfold bind at 1. unfold read_eris_drifts.
      rewrite read_eris_drifts_loop_spec.
      unfold bind at 1. rewrite print_eq. unfold bind at 1. rewrite print_eq.
      unfold ret, lift. rewrite add_drifts_spec.
      * rewrite !add_stdout_app, <- !app_assoc. reflexivity.
      * simpl. rewrite !length_fmap. lia.
    + unfold ret. rewrite app_nil_r. reflexivity.
  - unfold expected_offsets.
    destruct additional_drifts as [[a | dat] |].
    + rewrite length_zip_with, length_fmap. specialize (Hlen a eq_refl). lia.
    + rewrite length_zip_with, !length_fmap. lia.
    + rewrite length_fmap. lia.
  - intros -> x y. unfold expected_offsets.
    destruct fs as [| f0 rest]; [discriminate |].
    simpl. intros [= <- <-].
    inversion Hr as [| ? ? ? ? (_ & H1 & H2) _]; subst.
    unfold Qdiv. split; ring.
  - intros dat f -> Hin Hmiss. split.
    + unfold table_drift. unfold table_hit in Hmiss.
      destruct (filter _ dat) as [| r [| r' l]]; [reflexivity | discriminate | reflexivity].
    + simpl. unfold expected_stdout.
      rewrite !elem_of_app. right. right. left.
      unfold drift_messages. apply list_elem_of_bind.
      exists (f_arcfile f). rewrite Hmiss. split; [apply list_elem_of_singleton; reflexivity |].
      apply list_elem_of_fmap. exists f. split; [reflexivity | exact Hin].
Qed.

End OffsetEstimatorProps.

(** Exposures "a" and "b", one arcsecond apart in RA, and a drift table that
    knows "a" only. *)
Lemma compute_eris_offset_spec_witness :
  let images := [Sample.exposure "a" 0 0 2 1; Sample.exposure "b" 1 0 2 3] in
  let fs := [mk_fields (HStr "a") 0 0 (1 # 3600) (1 # 1800);
             mk_fields (HStr "b") 1 0 (1 # 3600) (1 # 1800)] in
  let drifts := Some (DriftTable [mk_drift_row "a" 33 30]) in
  compute_eris_offset Unit.WCS_of_header images drifts
    "Primary" "DATA" Sample.ra_key Sample.dec_key "sky" Unit.world0 =
  (add_stdout Unit.world0 (expected_stdout fs drifts),
   Ok (expected_offsets fs drifts)).
Proof.
  intros images fs drifts.
  refine (proj1 (compute_eris_offset_spec Unit.WCS_of_header
                   "Primary" "DATA" Sample.ra_key Sample.dec_key "sky"
                   images fs drifts Unit.world0 _ _ _)).
  - repeat constructor; try (vm_compute; reflexivity);
      vm_compute; intros H; discriminate H.
  - intros _ img hdu Himg Hhdu. injection Himg as <-.
    vm_compute in Hhdu. injection Hhdu as <-.
    eexists. vm_compute. reflexivity.
  - intros a H. discriminate H.
Defined.

(** C8 as stated fails: with a drift table that holds exposure 0, entry 0
    of the result is the drift of exposure 0, here (1, -2), not (0, 0). *)
Lemma compute_eris_offset_entry0_not_zero :
  exists x y,
    snd (compute_eris_offset Unit.WCS_of_header
           [Sample.exposure "a" 0 0 2 1]
           (Some (DriftTable [mk_drift_row "a" 33 30]))
           "Primary" "DATA" Sample.ra_key Sample.dec_key "sky" Unit.world0) =
    Ok [(x, y)] /\
    (x == 1)%Q /\ (y == -2)%Q /\ ~ (x == 0 /\ y == 0)%Q.
Proof.
  eexists _, _. split; [vm_compute; reflexivity |].
  split; [vm_compute; reflexivity |].
  split; [vm_compute; reflexivity |].
  intros [H _]. vm_compute in H. discriminate H.
Qed.

(** * Further properties of the combination routines *)

(** ** Computations that leave the world as it is *)

Definition pure_run {A} (m : M A) : Prop := forall w, fst (m w) = w.

Lemma pure_run_ret {A} (a : A) : pure_run (ret a).
Proof. intros w. reflexivity. Qed.

Lemma pure_run_raise {A} (e : exn) : pure_run (@raise A e).
Proof. intros w. reflexivity. Qed.

Lemma pure_run_lift {A} (o : outcome A) : pure_run (lift o).
Proof. intros w. reflexivity. Qed.

Lemma pure_run_deref r : pure_run (deref r).
Proof. intros w. reflexivity. Qed.

Lemma pure_run_bind {A B} (m : M A) (k : A -> M B) :
  pure_run m -> (forall a, pure_run (k a)) -> pure_run (bind m k).
Proof.
  intros Hm Hk w. unfold bind. specialize (Hm w).
  destruct (m w) as [w1 [a | e]]; simpl in Hm; subst w1.
  - apply Hk.
  - reflexivity.
Qed.

Lemma pure_run_check_shift_count ps n msg : pure_run (check_shift_count ps n msg).
Proof.
  intros w. unfold check_shift_count.
  destruct ps as [p |]; [case_decide |]; reflexivity.
Qed.

Ltac split_bind H :=
  let w := fresh "w" in
  let a := fresh "a" in
  let E := fresh "E" in
  apply bind_inv_ok in H; destruct H as (w & a & E & H).

Ltac pure_step :=
  first [ apply pure_run_bind; [| intros ?]
        | apply pure_run_ret | apply pure_run_raise | apply pure_run_lift
        | apply pure_run_deref | apply pure_run_check_shift_count ].

Lemma deref_inv r w w' o :
  deref r w = (w', Ok o) -> w' = w /\ heap w !! r = Some o.
Proof.
  unfold deref. intros H. injection H as Hw H. subst w'.
  split; [reflexivity |].
  destruct (heap w !! r); [simpl in H; congruence | discriminate].
Qed.

Lemma update_obj_inv r f w w' u :
  update_obj r f w = (w', Ok u) ->
  exists o, heap w !! r = Some o /\ w' = set_heap w (<[r := f o]> (heap w)).
Proof.
  unfold update_obj. destruct (heap w !! r) as [o |]; [| discriminate].
  intros H. injection H as Hw. subst w'. exists o. split; reflexivity.
Qed.

Section CombinedFrameStore.

Variable WCS_of_header : Header -> outcome WCS.
Variable pixel_to_pixel : WCS -> WCS -> list Q -> outcome (list Q).
Variable pixel_to_skycoord : Q -> Q -> WCS -> outcome (Q * Q).

Local Abbreviation find_wcs :=
  (find_combined_wcs WCS_of_header pixel_to_pixel pixel_to_skycoord).

Lemma pure_run_convert_corners r f coords acc :
  pure_run (convert_corners pixel_to_pixel r f coords acc).
Proof.
  revert acc. induction coords as [| c rest IH]; intros acc; simpl.
  - pure_step.
  - repeat pure_step. apply IH.
Qed.

Lemma pure_run_collect_corners_unshifted f coords i refs acc :
  pure_run (collect_corners pixel_to_pixel f coords None i refs acc).
Proof.
  revert i acc. induction refs as [| r rest IH]; intros i acc; simpl.
  - pure_step.
  - pure_step; [pure_step |].
    pure_step; [apply pure_run_convert_corners | apply IH].
Qed.

(** Without shifts, [find_combined_wcs] on a list of mappings reads the
    mappings and changes nothing: whether it returns or raises, the store,
    the output and the written files are as before the call. *)
Theorem find_combined_wcs_unshifted_keeps_world refs ext w :
  fst (find_combined_wcs WCS_of_header pixel_to_pixel pixel_to_skycoord
         None (Some refs) ext None w) = w.
Proof.
  revert w. change (pure_run (find_wcs None (Some refs) ext None)).
  unfold find_combined_wcs.
  repeat (pure_step; [first [apply pure_run_collect_corners_unshifted | pure_step] |]).
  destruct (take 2 _) as [| ? [| ? [| ? ?]]]; repeat pure_step.
Qed.

(** The corner loop with shifts: every mapping of the list has its shift
    subtracted from its reference pixel in the store, and no other object
    is touched. *)
Lemma collect_corners_shifts_in_place f coords ps i0 refs acc w w' corners :
  NoDup refs ->
  collect_corners pixel_to_pixel f coords (Some ps) i0 refs acc w = (w', Ok corners) ->
  (forall j r o, refs !! j = Some r -> heap w !! r = Some o ->
     exists shift v, Np.row ps (i0 + j) = Some shift /\
                     isub (crpix o) shift = Ok v /\
                     heap w' !! r = Some (set_crpix o v)) /\
  (forall r, r ∉ refs -> heap w' !! r = heap w !! r).
Proof.
  revert i0 acc w. induction refs as [| r0 rest IH]; intros i0 acc w Hnd H.
  - simpl in H. unfold ret in H. injection H as <- _.
    split; [intros j r o Hj; discriminate Hj | reflexivity].
  - apply NoDup_cons in Hnd as [Hnotin Hnd].
    cbn [collect_corners] in H.
    split_bind H. split_bind H.
    repeat split_bind E.
    apply lift_inv_ok in E1 as [Hw2 E1]. subst w2.
    destruct (Np.row ps i0) as [shift0 |] eqn:Erow; [| discriminate].
    simpl in E1. injection E1 as <-.
    apply deref_inv in E2 as [Hw3 E2]. subst w3.
    apply lift_inv_ok in E3 as [Hw4 E3]. subst w4.
    apply update_obj_inv in E as (o0 & Eo0 & Hw0). subst w0.
    assert (o0 = a2) as -> by congruence.
    pose proof (pure_run_convert_corners r0 f coords acc
                  (set_heap w (<[r0:=set_crpix a2 a3]> (heap w)))) as Hp.
    rewrite E0 in Hp. simpl in Hp. subst w1.
    destruct (IH (S i0) _ _ Hnd H) as [IHin IHout].
    split.
    + intros [| j] r o Hj Ho; simpl in Hj.
      * injection Hj as <-. assert (o = a2) as -> by congruence.
        exists shift0, a3. rewrite Nat.add_0_r.
        split; [exact Erow | split; [exact E3 |]].
        rewrite (IHout r0 Hnotin). simpl.
        apply list_lookup_insert_eq. eapply lookup_lt_Some; eassumption.
      * assert (Hne : r0 ≠ r).
        { intros ->. apply Hnotin. eapply list_elem_of_lookup_2; eassumption. }
        destruct (IHin j r o Hj) as (shift & v & Hrow' & Hsub' & Hh).
        { simpl. rewrite list_lookup_insert_ne by exact Hne. exact Ho. }
        exists shift, v. replace (i0 + S j) with (S i0 + j) by lia.
        auto.
    + intros r Hr. apply not_elem_of_cons in Hr as [Hne Hr].
      rewrite (IHout r Hr). simpl.
      apply list_lookup_insert_ne. congruence.
Qed.

End CombinedFrameStore.

(** ** The bounding box and the combined mapping *)

Lemma ranges_of_length cols : length (ranges_of cols) = length cols.
Proof.
  unfold ranges_of. rewrite length_zip_with, !length_fmap. lia.
Qed.

Section CombinedFrameResult.

Variable WCS_of_header : Header -> outcome WCS.
Variable pixel_to_pixel : WCS -> WCS -> list Q -> outcome (list Q).
Variable pixel_to_skycoord : Q -> Q -> WCS -> outcome (Q * Q).

Local Abbreviation find_wcs :=
  (find_combined_wcs WCS_of_header pixel_to_pixel pixel_to_skycoord).

(** the steps of a call that returns *)
Lemma find_combined_wcs_returns refs ext ps w w' res :
  find_wcs None (Some refs) ext ps w = (w', Ok res) ->
  exists r0 first coords corners cols chan0 rx ry first' sky,
    shifts_fit ps (length refs) /\
    refs !! 0 = Some r0 /\ heap w !! r0 = Some first /\
    corner_pixel_coords_of (naxis first) (array_shape first) = Ok coords /\
    collect_corners pixel_to_pixel r0 coords ps 0 refs [] w = (w', Ok corners) /\
    columns corners = Ok cols /\
    (Num.np_min <$> cols) !! 0 = Some chan0 /\
    take 2 (ranges_of cols) = [rx; ry] /\
    heap w' !! r0 = Some first' /\
    pixel_to_skycoord (inject_Z rx * (1 # 2)) (inject_Z ry * (1 # 2)) first' = Ok sky /\
    assign_reference first' (naxis first)
      (inject_Z rx * (1 # 2)) (inject_Z ry * (1 # 2)) chan0 sky (ranges_of cols) =
    Ok res.
Proof.
  unfold find_combined_wcs. intros H.
  apply bind_inv_ok in H as (w0 & refs' & E & H).
  apply lift_inv_ok in E as [Hw0 E]. subst w0.
  simpl in E. injection E as <-.
  apply bind_inv_ok in H as (w0 & [] & E & H).
  assert (Hfit : shifts_fit ps (length refs)).
  { unfold check_shift_count in E. destruct ps as [p |]; [| exact I].
    simpl. destruct (decide (Np.len p ≠ length refs)) as [Hne | Heq].
    - discriminate E.
    - destruct (decide (Np.len p = length refs)); [assumption | contradiction]. }
  pose proof (pure_run_check_shift_count ps (length refs)
                "Pixel_shift does not match the number of images or WCSs!" w) as Hp.
  rewrite E in Hp. simpl in Hp. subst w0. clear E.
  apply bind_inv_ok in H as (w0 & r0 & E & H).
  apply lift_inv_ok in E as [Hw0 Er0]. subst w0.
  destruct (refs !! 0) as [r0' |] eqn:Er0'; [| discriminate].
  simpl in Er0. injection Er0 as ->.
  apply bind_inv_ok in H as (w0 & first & E & H).
  apply deref_inv in E as [Hw0 Efirst]. subst w0.
  apply bind_inv_ok in H as (w0 & coords & E & H).
  apply lift_inv_ok in E as [Hw0 Ecoords]. subst w0.
  apply bind_inv_ok in H as (w0 & corners & Ecorners & H).
  apply bind_inv_ok in H as (w1 & cols & E & H).
  apply lift_inv_ok in E as [Hw1 Ecols]. subst w1.
  cbv zeta in H.
  apply bind_inv_ok in H as (w1 & chan0 & E & H).
  apply lift_inv_ok in E as [Hw1 Echan]. subst w1.
  destruct ((Num.np_min <$> cols) !! 0) as [chan0' |] eqn:Ec0; [| discriminate].
  simpl in Echan. injection Echan as ->.
  destruct (take 2 (ranges_of cols)) as [| rx [| ry [| ? ?]]] eqn:Et;
    try (unfold raise in H; discriminate H).
  apply bind_inv_ok in H as (w1 & first' & E & H).
  apply deref_inv in E as [Hw1 Efirst']. subst w1.
  apply bind_inv_ok in H as (w1 & sky & E & H).
  apply lift_inv_ok in E as [Hw1 Esky]. subst w1.
  apply lift_inv_ok in H as [Hw' Hres]. subst w0.
  exists r0, first, coords, corners, cols, chan0, rx, ry, first', sky.
  repeat split; assumption.
Qed.

(** With shifts given for a list of distinct mappings, a call that returns
    has subtracted shift [j] from the reference pixel of mapping [j] in the
    store itself, and has touched no object outside the list. *)
Theorem find_combined_wcs_shifts_in_place refs ext ps w w' res :
  NoDup refs ->
  find_wcs None (Some refs) ext (Some ps) w = (w', Ok res) ->
  (forall j r o, refs !! j = Some r -> heap w !! r = Some o ->
     exists shift v, Np.row ps j = Some shift /\
                     isub (crpix o) shift = Ok v /\
                     heap w' !! r = Some (set_crpix o v)) /\
  (forall r, r ∉ refs -> heap w' !! r = heap w !! r).
Proof.
  intros Hnd H.
  apply find_combined_wcs_returns in H
    as (r0 & first & coords & corners & cols & chan0 & rx & ry & first' & sky &
        _ & _ & _ & _ & Hc & _).
  exact (collect_corners_shifts_in_place pixel_to_pixel r0 coords ps 0 refs []
           w w' corners Hnd Hc).
Qed.

(** the mapping returned, field by field *)
Lemma find_combined_wcs_result refs ext ps w w' res r0 :
  find_wcs None (Some refs) ext ps w = (w', Ok res) ->
  refs !! 0 = Some r0 ->
  exists first' coords corners cols rx ry ra dec,
    heap w' !! r0 = Some first' /\
    corner_pixel_coords_of (naxis first') (array_shape first') = Ok coords /\
    collect_corners pixel_to_pixel r0 coords ps 0 refs [] w = (w', Ok corners) /\
    columns corners = Ok cols /\
    take 2 (ranges_of cols) = [rx; ry] /\
    pixel_to_skycoord (inject_Z rx * (1 # 2)) (inject_Z ry * (1 # 2)) first' =
      Ok (ra, dec) /\
    array_shape res = reverse (ranges_of cols) /\
    naxis res = naxis first' /\ cd res = cd first' /\ pc res = pc first' /\
    ((naxis first' = 2 /\ crpix res = crpix first' /\ crval res = [ra; dec]) \/
     (naxis first' = 3 /\
      crpix res = [inject_Z rx * (1 # 2); inject_Z ry * (1 # 2); 1]%Q /\
      exists reference_chan, crval res = [ra; dec; reference_chan])).
Proof.
  intros H H0.
  apply find_combined_wcs_returns in H
    as (r0' & first & coords & corners & cols & chan0 & rx & ry & first' & sky &
        _ & Hr0 & Hfirst & Hcoords & Hc & Hcols & _ & Ht & Hfirst' & Hsky & Hres).
  assert (r0' = r0) as -> by congruence.
  destruct (keeps_frames_collect_corners pixel_to_pixel r0 coords ps 0 refs []
              w r0 first Hfirst) as (o' & Ho' & Hn & _ & Hcd & Hpc & Hsh).
  rewrite Hc in Ho'. simpl in Ho'.
  assert (o' = first') as -> by congruence.
  destruct sky as [ra dec].
  exists first', coords, corners, cols, rx, ry, ra, dec.
  rewrite Hn, Hsh.
  split; [assumption |]. split; [assumption |]. split; [assumption |].
  split; [assumption |]. split; [assumption |]. split; [assumption |].
  unfold assign_reference in Hres.
  unfold corner_pixel_coords_of in Hcoords.
  destruct (naxis first) as [| [| [| [| n]]]] eqn:En; try discriminate Hcoords.
  - injection Hres as <-. simpl.
    repeat split; try assumption. left. repeat split; assumption.
  - destruct (match last_last (cd first') with
              | Some d => Some d
              | None => last_last (pc first')
              end) as [dchan |]; [| discriminate].
    destruct (last (crval first')) as [cl |]; [| discriminate].
    destruct (last (crpix first')) as [pl |]; [| discriminate].
    injection Hres as <-. simpl.
    repeat split; try assumption. right.
    repeat split; try assumption. eexists. reflexivity.
Qed.

(** What the call does with nothing to work on: with neither files nor
    mappings it fails on the length of [None]; with an empty list of
    mappings (and shifts, if any, of length 0) it fails on [wcs_list[0]].
    The world is left as it was. *)
Theorem find_combined_wcs_nothing_to_combine ext ps w :
  find_wcs None None ext ps w = (w, Raise TypeError) /\
  (shifts_fit ps 0 -> find_wcs None (Some []) ext ps w = (w, Raise IndexError)).
Proof.
  split.
  - reflexivity.
  - intros Hfit. unfold find_combined_wcs.
    erewrite bind_ok by reflexivity.
    erewrite bind_ok by (apply check_shift_count_ok, Hfit).
    reflexivity.
Qed.

Lemma np_round_near x s :
  (inject_Z s - (1 # 2) < x)%Q -> (x < inject_Z s + (1 # 2))%Q ->
  Num.np_round x = s.
Proof.
  intros Hlo Hhi. unfold Num.np_round.
  pose proof (Qfloor_le x) as Hf1. pose proof (Qlt_floor x) as Hf2.
  set (f := Qfloor x) in *.
  assert (Hle : (f <= s)%Z).
  { assert (H : (inject_Z f < inject_Z (s + 1))%Q).
    { rewrite inject_Z_plus. change (inject_Z 1) with 1%Q. lra. }
    rewrite <- Zlt_Qlt in H. lia. }
  assert (Hge : (s - 1 <= f)%Z).
  { assert (H : (inject_Z (s - 1) < inject_Z (f + 1))%Q).
    { unfold Z.sub. rewrite inject_Z_plus. change (inject_Z (- (1))) with (- (1))%Q.
      lra. }
    rewrite <- Zlt_Qlt in H. lia. }
  destruct (Z.eq_dec f s) as [E | E].
  - rewrite E in *.
    assert (Hc : ((x - inject_Z s) ?= (1 # 2))%Q = Lt)
      by (apply (proj1 (Qlt_alt _ _)); lra).
    rewrite Hc. reflexivity.
  - assert (Ef : f = (s - 1)%Z) by lia. rewrite Ef in *.
    assert (Hc : ((x - inject_Z (s - 1)) ?= (1 # 2))%Q = Gt).
    { apply (proj1 (Qgt_alt _ _)). unfold Z.sub. rewrite inject_Z_plus.
      change (inject_Z (- (1))) with (- (1))%Q. lra. }
    rewrite Hc. lia.
Qed.

(** the extent of an axis whose two corners come back within a quarter of
    a pixel of where they were *)
Lemma range_of_axis (s : Z) (a b : Q) :
  (1 <= s < 2 ^ 63)%Z ->
  (Qabs (a - 0) < 1 # 4)%Q -> (Qabs (b - inject_Z (s - 1)) < 1 # 4)%Q ->
  Num.astype_int
    (Num.np_round (Num.np_max [a; b] - Num.np_min [a; b] + 1)) = s.
Proof.
  intros Hs Ha Hb.
  apply Qabs_Qlt_condition in Ha as [Ha1 Ha2].
  apply Qabs_Qlt_condition in Hb as [Hb1 Hb2].
  unfold Z.sub in Hb1, Hb2. rewrite inject_Z_plus in Hb1, Hb2.
  change (inject_Z (- (1))) with (- (1))%Q in Hb1, Hb2.
  assert (H1 : (1 <= inject_Z s)%Q).
  { change 1%Q with (inject_Z 1). rewrite <- Zle_Qle. lia. }
  assert (Hr : Num.np_round (Num.np_max [a; b] - Num.np_min [a; b] + 1) = s).
  { apply np_round_near; simpl; unfold Num.qmax, Num.qmin;
      destruct (Qle_bool a b) eqn:E.
    - lra.
    - assert (Hba : (b < a)%Q).
      { apply Qnot_le_lt. intros Hle. apply Qle_bool_iff in Hle. congruence. }
      lra.
    - apply Qle_bool_iff in E. lra.
    - lra. }
  rewrite Hr. unfold Num.astype_int.
  destruct (Z.leb_spec (- 2 ^ 63) s); [| lia].
  destruct (Z.ltb_spec s (2 ^ 63)); [reflexivity | lia].
Qed.

(** One exposure without shifts, whose two corners the conversion of
    frame 0 onto itself returns within a quarter of a pixel: the grid
    returned is the grid of the exposure, and the store is as it was. *)
Theorem find_combined_wcs_single_exposure r0 first ext w w' res c0 c1 :
  heap w !! r0 = Some first ->
  length (array_shape first) = naxis first ->
  Forall (fun z => (1 <= z < 2 ^ 63)%Z) (array_shape first) ->
  pixel_to_pixel first first (replicate (naxis first) 0%Q) = Ok c0 ->
  pixel_to_pixel first first
    ((fun s => inject_Z (s - 1)) <$> reverse (array_shape first)) = Ok c1 ->
  Forall2 (fun c p => (Qabs (c - p) < 1 # 4)%Q) c0 (replicate (naxis first) 0%Q) ->
  Forall2 (fun c p => (Qabs (c - p) < 1 # 4)%Q) c1
    ((fun s => inject_Z (s - 1)) <$> reverse (array_shape first)) ->
  find_combined_wcs WCS_of_header pixel_to_pixel pixel_to_skycoord
    None (Some [r0]) ext None w = (w', Ok res) ->
  array_shape res = array_shape first /\ w' = w.
Proof.
  intros Hfirst Hlen Hpos Hc0 Hc1 Hn0 Hn1 H.
  pose proof (find_combined_wcs_unshifted_keeps_world WCS_of_header
                pixel_to_pixel pixel_to_skycoord [r0] ext w) as Hw.
  rewrite H in Hw. simpl in Hw. subst w'.
  split; [| reflexivity].
  destruct (find_combined_wcs_result [r0] ext None w w res r0 H eq_refl)
    as (first' & coords & corners & cols & rx & ry & ra & dec &
        Hf' & Hcoords & Hc & Hcols & _ & _ & Hshape & _).
  assert (first' = first) as -> by congruence.
  rewrite Hshape. clear Hshape H.
  cbn [collect_corners] in Hc.
  unfold corner_pixel_coords_of in Hcoords.
  destruct (array_shape first) as [| sy [| sx [| sc [| ? ?]]]] eqn:Es;
    simpl in Hlen; rewrite <- Hlen in *; try discriminate Hcoords.
  - injection Hcoords as <-.
    simpl in Hc. unfold bind, ret, deref, lift in Hc.
    rewrite Hfirst in Hc. cbn [from_option] in Hc.
    cbn in Hc0, Hc1, Hn0, Hn1. rewrite Hc0, Hc1 in Hc.
    injection Hc as <-.
    inversion Hn0 as [| a0 ? t0 ? Ha0 Hm0]; subst.
    inversion Hm0 as [| a1 ? t1 ? Ha1 Hk0]; subst.
    inversion Hk0; subst.
    inversion Hn1 as [| b0 ? u0 ? Hb0 Hm1]; subst.
    inversion Hm1 as [| b1 ? u1 ? Hb1 Hk1]; subst.
    inversion Hk1; subst.
    simpl in Hcols. injection Hcols as <-.
    inversion Hpos as [| ? ? Hy Hpos1]; subst.
    inversion Hpos1 as [| ? ? Hx _]; subst.
    unfold ranges_of. cbn [fmap list_fmap zip_with].
    rewrite (range_of_axis sx a0 b0 Hx Ha0 Hb0),
            (range_of_axis sy a1 b1 Hy Ha1 Hb1). reflexivity.
  - injection Hcoords as <-.
    simpl in Hc. unfold bind, ret, deref, lift in Hc.
    rewrite Hfirst in Hc. cbn [from_option] in Hc.
    cbn in Hc0, Hc1, Hn0, Hn1. rewrite Hc0, Hc1 in Hc.
    injection Hc as <-.
    inversion Hn0 as [| a0 ? t0 ? Ha0 Hm0]; subst.
    inversion Hm0 as [| a1 ? t1 ? Ha1 Hk0]; subst.
    inversion Hk0 as [| a2 ? t2 ? Ha2 Hj0]; subst.
    inversion Hj0; subst.
    inversion Hn1 as [| b0 ? u0 ? Hb0 Hm1]; subst.
    inversion Hm1 as [| b1 ? u1 ? Hb1 Hk1]; subst.
    inversion Hk1 as [| b2 ? u2 ? Hb2 Hj1]; subst.
    inversion Hj1; subst.
    simpl in Hcols. injection Hcols as <-.
    inversion Hpos as [| ? ? Hcn Hpos1]; subst.
    inversion Hpos1 as [| ? ? Hy Hpos2]; subst.
    inversion Hpos2 as [| ? ? Hx _]; subst.
    unfold ranges_of. cbn [fmap list_fmap zip_with].
    rewrite (range_of_axis sc a0 b0 Hx Ha0 Hb0),
            (range_of_axis sx a1 b1 Hy Ha1 Hb1),
            (range_of_axis sy a2 b2 Hcn Ha2 Hb2).
    reflexivity.
Qed.

End CombinedFrameResult.

(** Two images of 4 x 4 and 8 x 8 pixels with shifts (1, 2) and (3, 4). *)
Lemma find_combined_wcs_shifts_in_place_witness :
  let w := Sample.store [Sample.image 1 1 4 4; Sample.image 1 1 8 8] in
  let ps := Np.mk_nd [2; 2] [1; 2; 3; 4]%Q in
  match
    find_combined_wcs Unit.WCS_of_header Unit.pixel_to_pixel Unit.pixel_to_skycoord
      None (Some [0; 1]) "DATA" (Some ps) w
  with
  | (w', Ok _) =>
      forall j r o, [0; 1] !! j = Some r -> heap w !! r = Some o ->
        exists shift v, Np.row ps j = Some shift /\
                        isub (crpix o) shift = Ok v /\
                        heap w' !! r = Some (set_crpix o v)
  | (_, Raise _) => False
  end.
Proof.
  intros w ps.
  destruct (find_combined_wcs _ _ _ _ _ _ _ _) as [w' [res | e]] eqn:E.
  - refine (proj1 (find_combined_wcs_shifts_in_place Unit.WCS_of_header
                     Unit.pixel_to_pixel Unit.pixel_to_skycoord
                     [0; 1] "DATA"%string ps w w' res _ E)).
    apply NoDup_cons. split; [| apply NoDup_singleton].
    intros H%list_elem_of_singleton. discriminate H.
  - vm_compute in E. discriminate E.
Defined.

Lemma find_combined_wcs_nothing_to_combine_witness :
  find_combined_wcs Unit.WCS_of_header Unit.pixel_to_pixel Unit.pixel_to_skycoord
    None (Some []) "DATA" None Unit.world0 = (Unit.world0, Raise IndexError).
Proof.
  exact (proj2 (find_combined_wcs_nothing_to_combine Unit.WCS_of_header
                  Unit.pixel_to_pixel Unit.pixel_to_skycoord
                  "DATA"%string None Unit.world0) I).
Defined.

(** One image of 6 rows and 4 columns. *)
Lemma find_combined_wcs_single_exposure_witness :
  let w := Sample.store [Sample.image 1 1 6 4] in
  match
    find_combined_wcs Unit.WCS_of_header Unit.pixel_to_pixel Unit.pixel_to_skycoord
      None (Some [0]) "DATA" None w
  with
  | (w', Ok res) => array_shape res = [6; 4]%Z /\ w' = w
  | (_, Raise _) => False
  end.
Proof.
  intros w.
  destruct (find_combined_wcs _ _ _ _ _ _ _ _) as [w' [res | e]] eqn:E.
  - refine (find_combined_wcs_single_exposure Unit.WCS_of_header
              Unit.pixel_to_pixel Unit.pixel_to_skycoord
              0 (Sample.image 1 1 6 4) "DATA"%string w w' res
              [0; 0]%Q [3; 5]%Q _ _ _ _ _ _ _ E).
    + reflexivity.
    + reflexivity.
    + repeat constructor; vm_compute; congruence.
    + vm_compute. reflexivity.
    + vm_compute. reflexivity.
    + repeat constructor; vm_compute; reflexivity.
    + repeat constructor; vm_compute; reflexivity.
  - vm_compute in E. discriminate E.
Defined.

(** ** The solver on concrete frames *)

(** C1. Two images, of 4 x 4 pixels with reference pixel (1, 1) and of
    8 x 8 pixels with reference pixel (3, 2). The box of the corners has
    the extents 6 and 5, the grid returned is the reversed (5, 6), and the
    reference world coordinate is the sky position of the centre pixel
    (3, 5/2) of frame 0. The reference pixel returned is not that centre:
    it is still (1, 1), the reference pixel of frame 0, because the branch
    for two axes assigns the reference value only. Two cubes with the
    same spatial frames do get (3, 5/2, 1). *)
Theorem find_combined_wcs_image_reference_pixel :
  let w := Sample.store [Sample.image 1 1 4 4; Sample.image 3 2 8 8] in
  find_combined_wcs Unit.WCS_of_header Unit.pixel_to_pixel Unit.pixel_to_skycoord
    None (Some [0; 1]) "DATA" None w =
  (w, Ok (mk_wcs 2 [1; 1]%Q [13; 45 # 2]%Q None None [5; 6]%Z)) /\
  ranges_of [[0; 3; -2; 1]; [0; 3; -1; 2]]%Q = [6; 5]%Z /\
  Unit.pixel_to_skycoord (inject_Z 6 * (1 # 2)) (inject_Z 5 * (1 # 2))
    (Sample.image 1 1 4 4) = Ok (13, 45 # 2)%Q /\
  [1; 1]%Q <> [inject_Z 6 * (1 # 2); inject_Z 5 * (1 # 2)]%Q /\
  let step := Some [[1; 0; 0]; [0; 1; 0]; [0; 0; 1 # 10]]%Q in
  let wc := Sample.store [Sample.cube 1 1 5 4 4 step None;
                          Sample.cube 3 2 5 8 8 step None] in
  exists crval3,
    find_combined_wcs Unit.WCS_of_header Unit.pixel_to_pixel Unit.pixel_to_skycoord
      None (Some [0; 1]) "DATA" None wc =
    (wc, Ok (mk_wcs 3 [inject_Z 6 * (1 # 2); inject_Z 5 * (1 # 2); 1]%Q crval3
               step None [5; 5; 6]%Z)).
Proof.
  split; [vm_compute; reflexivity |].
  split; [vm_compute; reflexivity |].
  split; [vm_compute; reflexivity |].
  split; [intros H; discriminate H |].
  eexists. vm_compute. reflexivity.
Qed.

(** C2. Two images at the same pointing, of 4 x 4 and of 8 x 8 pixels.
    The far corner converted for the second image is (3, 3), the far
    corner of frame 0, and not its own far corner (7, 7), which frame 0
    sees at (7, 7): the corner coordinates are computed once, from the
    shape of frame 0, and the shape read from each mapping in the loop is
    used nowhere. The grid returned is 4 x 4 and leaves most of the second
    image outside. *)
Theorem find_combined_wcs_far_corner_of_frame_0 :
  let w := Sample.store [Sample.image 1 1 4 4; Sample.image 1 1 8 8] in
  corner_pixel_coords_of 2 (array_shape (Sample.image 1 1 4 4)) =
    Ok [[0; 0]; [3; 3]]%Q /\
  collect_corners Unit.pixel_to_pixel 0 [[0; 0]; [3; 3]]%Q None 0 [0; 1] [] w =
    (w, Ok [[0; 0]; [3; 3]; [0; 0]; [3; 3]]%Q) /\
  Unit.pixel_to_pixel (Sample.image 1 1 8 8) (Sample.image 1 1 4 4) [7; 7]%Q =
    Ok [7; 7]%Q /\
  find_combined_wcs Unit.WCS_of_header Unit.pixel_to_pixel Unit.pixel_to_skycoord
    None (Some [0; 1]) "DATA" None w =
  (w, Ok (mk_wcs 2 [1; 1]%Q [12; 22]%Q None None [4; 4]%Z)).
Proof. repeat split; vm_compute; reflexivity. Qed.

(** C3. Two mappings of the caller, with reference pixels (1, 1), and the
    shifts (1, 2) and (3, 4). After the call the caller's two objects
    carry the reference pixels (0, -1) and (-2, -3): the shifts were
    subtracted from the objects of the list themselves, and the mapping
    returned is built on the shifted frame 0. *)
Theorem find_combined_wcs_shifts_callers_mappings :
  let w := Sample.store [Sample.image 1 1 4 4; Sample.image 1 1 8 8] in
  let ps := Np.mk_nd [2; 2] [1; 2; 3; 4]%Q in
  find_combined_wcs Unit.WCS_of_header Unit.pixel_to_pixel Unit.pixel_to_skycoord
    None (Some [0; 1]) "DATA" (Some ps) w =
  (Sample.store [set_crpix (Sample.image 1 1 4 4) [0; -1]%Q;
                 set_crpix (Sample.image 1 1 8 8) [-2; -3]%Q],
   Ok (mk_wcs 2 [0; -1]%Q [14; 25]%Q None None [6; 6]%Z)) /\
  heap w !! 0 = Some (Sample.image 1 1 4 4) /\
  Sample.image 1 1 4 4 <> set_crpix (Sample.image 1 1 4 4) [0; -1]%Q.
Proof.
  split; [vm_compute; reflexivity |].
  split; [reflexivity |].
  intros H. discriminate H.
Qed.

(** ** [fix_micron_unit_header] *)

(** The unit fix touches the CUNIT3 card only, never leaves "MICRON" there,
    and a second application changes nothing more. *)
Theorem fix_micron_unit_header_spec (header : Header) :
  fix_micron_unit_header header !! "CUNIT3" ≠ Some (HStr "MICRON") /\
  (forall key, key ≠ "CUNIT3" ->
     fix_micron_unit_header header !! key = header !! key) /\
  (header !! "CUNIT3" = Some (HStr "MICRON") ->
     fix_micron_unit_header header !! "CUNIT3" = Some (HStr "um")) /\
  (header !! "CUNIT3" ≠ Some (HStr "MICRON") ->
     fix_micron_unit_header header = header) /\
  fix_micron_unit_header (fix_micron_unit_header header) =
    fix_micron_unit_header header.
Proof.
  unfold Header in *.
  assert (Hfix : forall h : gmap string hval,
             h !! "CUNIT3" ≠ Some (HStr "MICRON") -> fix_micron_unit_header h = h).
  { intros h Hh. unfold fix_micron_unit_header, Header in *.
    destruct (h !! "CUNIT3") as [[u | q] |] eqn:E; try reflexivity.
    destruct (decide (u = "MICRON")) as [-> | Hne]; [contradiction | reflexivity]. }
  assert (Hnot : fix_micron_unit_header header !! "CUNIT3" ≠ Some (HStr "MICRON")).
  { unfold fix_micron_unit_header, Header in *.
    destruct (header !! "CUNIT3") as [[u | q] |] eqn:E; try (rewrite E; congruence).
    destruct (decide (u = "MICRON")) as [-> | Hne].
    - rewrite lookup_insert_eq. discriminate.
    - rewrite E. congruence. }
  split; [exact Hnot |]. split; [| split; [| split]].
  - intros key Hk. unfold fix_micron_unit_header, Header in *.
    destruct (header !! "CUNIT3") as [[u | q] |]; try reflexivity.
    destruct (decide (u = "MICRON")) as [-> | Hne]; [| reflexivity].
    apply lookup_insert_ne. congruence.
  - intros E. unfold fix_micron_unit_header, Header in *. rewrite E.
    rewrite decide_True by reflexivity. apply lookup_insert_eq.
  - apply Hfix.
  - apply Hfix, Hnot.
Qed.

Lemma fix_micron_unit_header_spec_witness :
  fix_micron_unit_header (Sample.data_header 4) !! "CUNIT3" = Some (HStr "um") /\
  fix_micron_unit_header (Sample.primary_header "a" 0 0) = Sample.primary_header "a" 0 0.
Proof.
  destruct (fix_micron_unit_header_spec (Sample.data_header 4)) as (_ & _ & H & _).
  destruct (fix_micron_unit_header_spec (Sample.primary_header "a" 0 0))
    as (_ & _ & _ & H' & _).
  split.
  - apply H. vm_compute. reflexivity.
  - apply H'. vm_compute. discriminate.
Defined.

(** ** [data_combine]: files and resamplings *)

Definition writes_nothing {A} (m : M A) : Prop :=
  forall w, written (fst (m w)) = written w.

(** a run that returns has made exactly [n] resamplings *)
Definition resamples {A} (n : nat) (m : M A) : Prop :=
  forall w w' a, m w = (w', Ok a) -> reprojections w' = reprojections w + n.

Lemma writes_nothing_bind {A B} (m : M A) (k : A -> M B) :
  writes_nothing m -> (forall a, writes_nothing (k a)) -> writes_nothing (bind m k).
Proof.
  intros Hm Hk w. unfold bind. specialize (Hm w).
  destruct (m w) as [w1 [a | e]]; simpl in Hm.
  - rewrite <- Hm. apply Hk.
  - exact Hm.
Qed.

Lemma writes_nothing_quiet {A} (m : M A) : quiet m -> writes_nothing m.
Proof. intros H w. apply H. Qed.

Lemma writes_nothing_same {A} (m : M A) :
  (forall w, written (fst (m w)) = written w) -> writes_nothing m.
Proof. intros H. exact H. Qed.

Lemma resamples_bind {A B} n k (m : M A) (f : A -> M B) :
  resamples n m -> (forall a, resamples k (f a)) -> resamples (n + k) (bind m f).
Proof.
  intros Hm Hf w w' b H. apply bind_inv_ok in H as (w1 & a & E & H).
  rewrite (Hf a w1 w' b H), (Hm w w1 a E). lia.
Qed.

Lemma resamples_quiet {A} (m : M A) : quiet m -> resamples 0 m.
Proof.
  intros H w w' a E. destruct (H w) as [Hr _]. rewrite E in Hr. simpl in Hr. lia.
Qed.

Lemma quiet_logging_warning s : quiet (logging_warning s).
Proof. intros w. repeat split; reflexivity. Qed.

Lemma quiet_reconcile_channels sh data mask : quiet (reconcile_channels sh data mask).
Proof.
  unfold reconcile_channels. case_decide; [| apply quiet_ret].
  apply quiet_bind; [apply quiet_lift |]. intros target.
  apply quiet_bind.
  { case_decide; [apply quiet_logging_warning | apply quiet_ret]. }
  intros _. case_decide; [apply quiet_ret |].
  cbv zeta. repeat quiet_step.
Qed.

Lemma resamples_count : resamples 1 count_reprojection.
Proof. intros w w' a H. injection H as <- _. simpl. lia. Qed.

Lemma writes_nothing_count : writes_nothing count_reprojection.
Proof. intros w. reflexivity. Qed.

Section DataCombineEffects.

Variable WCS_of_header : Header -> outcome WCS.
Variable pixel_to_pixel : WCS -> WCS -> list Q -> outcome (list Q).
Variable pixel_to_skycoord : Q -> Q -> WCS -> outcome (Q * Q).
Variable celestial : WCS -> WCS.
Variable to_header : WCS -> Header.
Variable sigma_clip_5 : masked -> Q -> outcome masked.
Variable subtract_channel_median : masked -> outcome masked.
Variable reproject_adaptive :
  Np.ndarray Q -> WCS -> WCS -> list nat -> bool ->
  outcome (Np.ndarray Q * Np.ndarray Q).

Local Abbreviation one :=
  (combine_one celestial sigma_clip_5 subtract_channel_median reproject_adaptive).
Local Abbreviation accumulate :=
  (accumulate_exposures WCS_of_header pixel_to_pixel pixel_to_skycoord
     celestial sigma_clip_5 subtract_channel_median reproject_adaptive).
Local Abbreviation combine :=
  (data_combine WCS_of_header pixel_to_pixel pixel_to_skycoord
     celestial to_header sigma_clip_5 subtract_channel_median
     reproject_adaptive).

Lemma quiet_read_mask (fi : FitsFile) mext (data : Np.ndarray Q) :
  quiet (match mext with
         | Some ext =>
             mhdu <~ lift (from_option (KeyError ext) (fi !! ext));;
             ret (hdu_data mhdu)
         | None => ret (Np.full (Np.shape data) 0%Q)
         end).
Proof. destruct mext; repeat quiet_step. Qed.

Lemma combine_one_writes_nothing images refs dext mext sc sg bg wt wcs sh i acc :
  writes_nothing (one images refs dext mext sc sg bg wt wcs sh i acc).
Proof.
  unfold combine_one. destruct acc as [d c].
  apply writes_nothing_bind; [apply writes_nothing_quiet, quiet_lift | intros r].
  apply writes_nothing_bind; [apply writes_nothing_quiet, quiet_deref | intros wi].
  apply writes_nothing_bind; [apply writes_nothing_quiet, quiet_lift | intros fi].
  apply writes_nothing_bind; [apply writes_nothing_quiet, quiet_lift | intros dhdu].
  apply writes_nothing_bind; [apply writes_nothing_quiet, quiet_read_mask | intros mask].
  apply writes_nothing_bind;
    [apply writes_nothing_quiet, quiet_reconcile_channels | intros [data mask']].
  apply writes_nothing_bind; [apply writes_nothing_quiet, quiet_lift | intros dm].
  apply writes_nothing_bind;
    [destruct sc; apply writes_nothing_quiet; quiet_step | intros dm1].
  apply writes_nothing_bind;
    [destruct bg; apply writes_nothing_quiet; quiet_step | intros dm2].
  apply writes_nothing_bind; [apply writes_nothing_count | intros _].
  apply writes_nothing_bind; [apply writes_nothing_quiet, quiet_lift | intros [dr fp]].
  apply writes_nothing_bind; [apply writes_nothing_count | intros _].
  apply writes_nothing_bind; [apply writes_nothing_quiet, quiet_lift | intros [mr fp']].
  apply writes_nothing_bind; [intros ?; reflexivity | intros _].
  apply writes_nothing_quiet. repeat quiet_step.
Qed.

Lemma combine_one_resamples images refs dext mext sc sg bg wt wcs sh i acc :
  resamples 2 (one images refs dext mext sc sg bg wt wcs sh i acc).
Proof.
  unfold combine_one. destruct acc as [d c].
  change 2 with (0 + (0 + (0 + (0 + (0 + (0 + (0 + (0 + (0 + (1 + (0 + (1 + (0 + (0 + 0)))))))))))))).
  apply resamples_bind; [apply resamples_quiet, quiet_lift | intros r].
  apply resamples_bind; [apply resamples_quiet, quiet_deref | intros wi].
  apply resamples_bind; [apply resamples_quiet, quiet_lift | intros fi].
  apply resamples_bind; [apply resamples_quiet, quiet_lift | intros dhdu].
  apply resamples_bind; [apply resamples_quiet, quiet_read_mask | intros mask].
  apply resamples_bind;
    [apply resamples_quiet, quiet_reconcile_channels | intros [data mask']].
  apply resamples_bind; [apply resamples_quiet, quiet_lift | intros dm].
  apply resamples_bind;
    [destruct sc; apply resamples_quiet; quiet_step | intros dm1].
  apply resamples_bind;
    [destruct bg; apply resamples_quiet; quiet_step | intros dm2].
  apply resamples_bind; [apply resamples_count | intros _].
  apply resamples_bind; [apply resamples_quiet, quiet_lift | intros [dr fp]].
  apply resamples_bind; [apply resamples_count | intros _].
  apply resamples_bind; [apply resamples_quiet, quiet_lift | intros [mr fp']].
  apply resamples_bind;
    [intros w0 w1 [] E; injection E as <-; simpl; lia | intros _].
  apply resamples_quiet. repeat quiet_step.
Qed.

Lemma combine_loop_writes_nothing step indices acc :
  (forall i a, writes_nothing (step i a)) ->
  writes_nothing (combine_loop step indices acc).
Proof.
  intros Hs. revert acc. induction indices as [| i rest IH]; intros acc; simpl.
  - intros w. reflexivity.
  - apply writes_nothing_bind; [apply Hs | intros a; apply IH].
Qed.

Lemma combine_loop_resamples step indices acc :
  (forall i a, resamples 2 (step i a)) ->
  resamples (2 * length indices) (combine_loop step indices acc).
Proof.
  intros Hs. revert acc. induction indices as [| i rest IH]; intros acc.
  - apply resamples_quiet, quiet_ret.
  - cbn [combine_loop].
    replace (2 * length (i :: rest)) with (2 + 2 * length rest) by (simpl; lia).
    apply resamples_bind; [apply Hs | intros a; apply IH].
Qed.

Lemma quiet_check_shift_count ps n msg : quiet (check_shift_count ps n msg).
Proof.
  unfold check_shift_count. destruct ps; [case_decide |]; quiet_step.
Qed.

Lemma accumulate_writes_nothing images dext mext ps ig sc sg bg hext wt :
  writes_nothing (accumulate images dext mext ps ig sc sg bg hext wt).
Proof.
  unfold accumulate_exposures.
  apply writes_nothing_bind;
    [apply writes_nothing_quiet, quiet_check_shift_count | intros _].
  apply writes_nothing_bind;
    [apply writes_nothing_quiet, quiet_resolve | intros [refs header]].
  apply writes_nothing_bind;
    [apply writes_nothing_quiet, quiet_find_combined_wcs | intros wcs].
  apply writes_nothing_bind; [apply writes_nothing_quiet, quiet_lift | intros sh].
  apply writes_nothing_bind.
  - apply combine_loop_writes_nothing. intros. apply combine_one_writes_nothing.
  - intros acc w. reflexivity.
Qed.

Lemma accumulate_resamples images dext mext ps ig sc sg bg hext wt :
  resamples (2 * length images) (accumulate images dext mext ps ig sc sg bg hext wt).
Proof.
  unfold accumulate_exposures.
  replace (2 * length images)
    with (0 + (0 + (0 + (0 + (2 * length images + 0))))) by lia.
  apply resamples_bind;
    [apply resamples_quiet, quiet_check_shift_count | intros _].
  apply resamples_bind;
    [apply resamples_quiet, quiet_resolve | intros [refs header]].
  apply resamples_bind;
    [apply resamples_quiet, quiet_find_combined_wcs | intros wcs].
  apply resamples_bind; [apply resamples_quiet, quiet_lift | intros sh].
  apply resamples_bind.
  - intros w0 w1 a E.
    eapply combine_loop_resamples in E;
      [rewrite length_seq in E; exact E | intros; apply combine_one_resamples].
  - intros acc. apply resamples_quiet, quiet_ret.
Qed.

End DataCombineEffects.

(** ** [data_combine]: the coverage *)

Definition in_unit_interval (a : Np.ndarray Q) : Prop :=
  Forall (fun x => 0 <= x /\ x <= 1)%Q (Np.flat a).

Definition covered (c : Np.ndarray Q) : Prop :=
  Forall (fun x => coverage_epsilon <= x)%Q (Np.flat c).

(** the coverage after the complements of the masks [ms] have been added
    to [c], one after the other *)
Fixpoint coverage_after (c : Np.ndarray Q) (ms : list (Np.ndarray Q))
    : outcome (Np.ndarray Q) :=
  match ms with
  | [] => Ok c
  | m :: rest =>
      match iadd c (Np.map (fun x => 1 - x)%Q m) with
      | Ok c' => coverage_after c' rest
      | Raise e => Raise e
      end
  end.

Lemma iadd_covered (c x c' : Np.ndarray Q) :
  covered c -> Forall (fun v => 0 <= v)%Q (Np.flat x) ->
  iadd c x = Ok c' -> covered c'.
Proof.
  unfold covered, iadd, Np.zip_with. intros Hc Hx.
  destruct (decide (Np.shape c = Np.shape x)); simpl; [| discriminate].
  intros [= <-]. simpl.
  revert Hx. generalize (Np.flat x).
  induction Hc as [| v l Hv Hl IH]; intros [| y ys] Hy; simpl; try constructor.
  - inversion Hy; subst. lra.
  - inversion Hy; subst. apply IH. assumption.
Qed.

Lemma complement_nonneg (m : Np.ndarray Q) :
  in_unit_interval m ->
  Forall (fun v => 0 <= v)%Q (Np.flat (Np.map (fun m => 1 - m)%Q m)).
Proof.
  unfold in_unit_interval, Np.map. simpl. intros H.
  apply Forall_fmap. eapply Forall_impl; [exact H |].
  intros x [_ Hx]. simpl. lra.
Qed.

Lemma coverage_after_covered ms : forall c c',
  Forall in_unit_interval ms ->
  coverage_after c ms = Ok c' -> covered c -> covered c'.
Proof.
  induction ms as [| m rest IH]; intros c c' Hms H Hc.
  - simpl in H. injection H as <-. exact Hc.
  - simpl in H. inversion Hms as [| ? ? Hm Hrest]; subst.
    destruct (iadd c (Np.map (fun x => 1 - x)%Q m)) as [c1 |] eqn:E;
      [| discriminate H].
    apply (IH c1 c' Hrest H).
    eapply iadd_covered; [exact Hc | | exact E].
    apply complement_nonneg, Hm.
Qed.

Lemma coverage_after_app ms1 ms2 c c1 :
  coverage_after c ms1 = Ok c1 ->
  coverage_after c (ms1 ++ ms2) = coverage_after c1 ms2.
Proof.
  revert c. induction ms1 as [| m rest IH]; intros c H; simpl in *.
  - injection H as <-. reflexivity.
  - destruct (iadd c (Np.map (fun x => 1 - x)%Q m)) as [c' |]; [| discriminate H].
    apply IH, H.
Qed.

Lemma full_covered sh : covered (Np.full sh coverage_epsilon).
Proof.
  unfold covered, Np.full. simpl. apply Forall_forall.
  intros x Hx. apply elem_of_replicate in Hx as [-> _]. apply Qle_refl.
Qed.

(** computations that leave the resampled masks as they are *)
Definition keeps_masks {A} (m : M A) : Prop :=
  forall w, resampled_masks (fst (m w)) = resampled_masks w.

Lemma keeps_masks_quiet {A} (m : M A) : quiet m -> keeps_masks m.
Proof. intros H w. apply H. Qed.

Lemma keeps_masks_count : keeps_masks count_reprojection.
Proof. intros w. reflexivity. Qed.

Lemma keeps_masks_run {A} (m : M A) w w' r :
  keeps_masks m -> m w = (w', r) -> resampled_masks w' = resampled_masks w.
Proof. intros H E. specialize (H w). rewrite E in H. exact H. Qed.

Ltac quiet_choice :=
  match goal with
  | |- quiet (if ?b then _ else _) => destruct b
  | |- quiet (match ?o with Some _ => _ | None => _ end) => destruct o
  end.

Ltac keeps_masks_solve :=
  first [ apply keeps_masks_count
        | apply keeps_masks_quiet;
          first [ apply quiet_reconcile_channels
                | solve [repeat quiet_step]
                | quiet_choice; solve [repeat quiet_step] ] ].

(** binds off the next step of [H] and carries the masks over it *)
Ltac masks_step H Hm :=
  let w := fresh "w" in
  let a := fresh "a" in
  let E := fresh "E" in
  let Hk := fresh "Hk" in
  cbv beta iota in H;
  apply bind_inv_ok in H; destruct H as (w & a & E & H);
  assert (Hk : resampled_masks w = _)
    by (eapply keeps_masks_run; [| exact E]; keeps_masks_solve);
  rewrite <- Hk in Hm; clear Hk E;
  try match type of H with
      | (let '(_, _) := ?p in _) _ = _ => destruct p
      end.

Section Coverage.

Variable WCS_of_header : Header -> outcome WCS.
Variable pixel_to_pixel : WCS -> WCS -> list Q -> outcome (list Q).
Variable pixel_to_skycoord : Q -> Q -> WCS -> outcome (Q * Q).
Variable celestial : WCS -> WCS.
Variable sigma_clip_5 : masked -> Q -> outcome masked.
Variable subtract_channel_median : masked -> outcome masked.
Variable reproject_adaptive :
  Np.ndarray Q -> WCS -> WCS -> list nat -> bool ->
  outcome (Np.ndarray Q * Np.ndarray Q).

(** an exposure adds the complement of its resampled mask to the coverage *)
Lemma combine_one_coverage images refs dext mext sc sg bg wt wcs sh i d c w w' d' c' :
  combine_one celestial sigma_clip_5 subtract_channel_median reproject_adaptive
    images refs dext mext sc sg bg wt wcs sh i (d, c) w = (w', Ok (d', c')) ->
  exists m,
    resampled_masks w' = resampled_masks w ++ [m] /\
    iadd c (Np.map (fun x => 1 - x)%Q m) = Ok c'.
Proof.
  unfold combine_one. intros H.
  assert (Hm : resampled_masks w = resampled_masks w) by reflexivity.
  revert Hm. generalize w at 1 3. intros w0 Hm.
  do 13 masks_step H Hm.
  apply bind_inv_ok in H as (wa & [] & E & H).
  unfold note_mask in E. injection E as <-.
  apply bind_inv_ok in H as (wb & wi & E & H).
  apply lift_inv_ok in E as [-> _].
  apply bind_inv_ok in H as (wc & d1 & E & H).
  apply lift_inv_ok in E as [-> _].
  apply bind_inv_ok in H as (wd & c1 & E & H).
  apply lift_inv_ok in E as [-> Ec].
  unfold ret in H. injection H as <- _ <-.
  eexists. simpl. rewrite Hm. split; [reflexivity | exact Ec].
Qed.

Lemma combine_loop_coverage images refs dext mext sc sg bg wt wcs sh indices :
  forall d c w w' d' c',
    combine_loop
      (combine_one celestial sigma_clip_5 subtract_channel_median
         reproject_adaptive images refs dext mext sc sg bg wt wcs sh)
      indices (d, c) w = (w', Ok (d', c')) ->
    exists ms,
      resampled_masks w' = resampled_masks w ++ ms /\
      length ms = length indices /\
      coverage_after c ms = Ok c'.
Proof.
  induction indices as [| i rest IH]; intros d c w w' d' c' H.
  - simpl in H. unfold ret in H. injection H as <- _ <-.
    exists []. rewrite app_nil_r. repeat split; reflexivity.
  - simpl in H. apply bind_inv_ok in H as (w1 & [d1 c1] & E & H).
    apply combine_one_coverage in E as (m & Hm & Ec).
    apply IH in H as (ms & Hms & Hlen & Hcov).
    exists (m :: ms). split; [| split].
    + rewrite Hms, Hm, <- app_assoc. reflexivity.
    + simpl. rewrite Hlen. reflexivity.
    + simpl. rewrite Ec. exact Hcov.
Qed.

(** C6. The coverage starts from the positive [coverage_epsilon] in every
    pixel and every exposure adds the complement [1 - m] of its resampled
    mask [m]. The masks the resampler returned during the call are the
    ones the call has appended to [resampled_masks], one per exposure, and
    the coverage is what adding their complements to the initial array
    gives. When the values of those masks lie in [0, 1], the array by
    which [data_combine] divides is positive in every pixel, and at least
    [coverage_epsilon]. *)
Theorem coverage_strictly_positive
    images dext mext ps ig sc sg bg hext wt w w' wcs hdr d c masks :
  accumulate_exposures WCS_of_header pixel_to_pixel pixel_to_skycoord celestial
    sigma_clip_5 subtract_channel_median reproject_adaptive
    images dext mext ps ig sc sg bg hext wt w = (w', Ok (wcs, hdr, (d, c))) ->
  resampled_masks w' = resampled_masks w ++ masks ->
  Forall in_unit_interval masks ->
  length masks = length images /\
  (exists sh, shape_of_tuple (array_shape wcs) = Ok sh /\
     coverage_after (Np.full sh coverage_epsilon) masks = Ok c) /\
  Forall (fun x => 0 < x /\ coverage_epsilon <= x)%Q (Np.flat c).
Proof.
  unfold accumulate_exposures. intros H Hmasks Hunit.
  remember (resampled_masks w) as ms0 eqn:Hm.
  apply bind_inv_ok in H as (w1 & [] & E & H).
  assert (Hk : resampled_masks w1 = resampled_masks w)
    by (eapply keeps_masks_run; [| exact E];
        apply keeps_masks_quiet, quiet_check_shift_count).
  rewrite <- Hk in Hm. clear Hk E.
  apply bind_inv_ok in H as (w2 & [refs header] & E & H).
  assert (Hk : resampled_masks w2 = resampled_masks w1)
    by (eapply keeps_masks_run; [| exact E];
        apply keeps_masks_quiet, quiet_resolve).
  rewrite <- Hk in Hm. clear Hk E.
  apply bind_inv_ok in H as (w3 & wcs3 & E & H).
  assert (Hk : resampled_masks w3 = resampled_masks w2)
    by (eapply keeps_masks_run; [| exact E];
        apply keeps_masks_quiet, quiet_find_combined_wcs).
  rewrite <- Hk in Hm. clear Hk E.
  apply bind_inv_ok in H as (w4 & sh & E & H).
  apply lift_inv_ok in E as [-> Esh].
  apply bind_inv_ok in H as (w4 & [d4 c4] & E & H).
  unfold ret in H. injection H as <- <- <- <- <-.
  apply combine_loop_coverage in E as (ms & Hms & Hlen & Hcov).
  rewrite <- Hm, Hmasks in Hms. apply app_inv_head in Hms. subst ms.
  rewrite length_seq in Hlen.
  split; [exact Hlen |]. split; [exists sh; split; assumption |].
  assert (Hc : covered c4).
  { eapply coverage_after_covered; [exact Hunit | exact Hcov | apply full_covered]. }
  eapply Forall_impl; [exact Hc |].
  intros x Hx. simpl in Hx. split; [| exact Hx].
  unfold coverage_epsilon in *. lra.
Qed.

End Coverage.

(** Two good two-channel cubes: the two resampled masks are zero
    everywhere and the coverage ends at 2 + 1e-8 in every pixel. *)
Lemma coverage_strictly_positive_witness :
  match
    accumulate_exposures Unit.WCS_of_header Unit.pixel_to_pixel
      Unit.pixel_to_skycoord Unit.celestial Unit.sigma_clip_5
      Unit.subtract_channel_median Unit.reproject_adaptive
      [Sample.exposure "a" 0 0 2 1; Sample.exposure "b" 1 0 2 3] "DATA" (Some "DQI")
      None false true 3 true None None Unit.world0
  with
  | (w', Ok (_, _, (_, c))) =>
      Forall in_unit_interval (resampled_masks w') /\
      length (resampled_masks w') = 2 /\
      Forall (fun x => 0 < x /\ coverage_epsilon <= x)%Q (Np.flat c)
  | (_, Raise _) => False
  end.
Proof.
  destruct (accumulate_exposures _ _ _ _ _ _ _ _ _ _ _ _ _ _ _ _ _ _)
    as [w' [[[wcs hdr] [d c]] | e]] eqn:E.
  - assert (Hunit : Forall in_unit_interval (resampled_masks w')).
    { pose proof E as E'. vm_compute in E'. injection E' as <- _ _ _ _.
      repeat constructor; discriminate. }
    destruct (coverage_strictly_positive Unit.WCS_of_header Unit.pixel_to_pixel
                Unit.pixel_to_skycoord Unit.celestial Unit.sigma_clip_5
                Unit.subtract_channel_median Unit.reproject_adaptive
                [Sample.exposure "a" 0 0 2 1; Sample.exposure "b" 1 0 2 3]
                "DATA"%string (Some "DQI"%string)
                None false true 3%Q true None None Unit.world0 w' wcs hdr d c
                (resampled_masks w') E eq_refl Hunit) as (Hlen & _ & Hpos).
    split; [exact Hunit |]. split; [exact Hlen | exact Hpos].
  - vm_compute in E. discriminate E.
Defined.

Module Sample2D.

(** a file holding a 2 x 2 image, every pixel [v], with a CD matrix *)
Definition image_header : Header :=
  list_to_map
    [("NAXIS", HNum 2); ("NAXIS1", HNum 2); ("NAXIS2", HNum 2);
     ("CRPIX1", HNum 1); ("CRPIX2", HNum 1);
     ("CRVAL1", HNum 10); ("CRVAL2", HNum 20);
     ("CD1_1", HNum (1 # 3600)); ("CD2_2", HNum (1 # 3600))]%Q.

Definition exposure (v : Q) : FitsFile :=
  list_to_map
    [("DATA", mk_hdu image_header (Np.full [2; 2] v));
     ("DQI", mk_hdu ∅ (Np.full [2; 2] 0%Q))].

End Sample2D.

Section DataCombineFiles.

Variable WCS_of_header : Header -> outcome WCS.
Variable pixel_to_pixel : WCS -> WCS -> list Q -> outcome (list Q).
Variable pixel_to_skycoord : Q -> Q -> WCS -> outcome (Q * Q).
Variable celestial : WCS -> WCS.
Variable to_header : WCS -> Header.
Variable sigma_clip_5 : masked -> Q -> outcome masked.
Variable subtract_channel_median : masked -> outcome masked.
Variable reproject_adaptive :
  Np.ndarray Q -> WCS -> WCS -> list nat -> bool ->
  outcome (Np.ndarray Q * Np.ndarray Q).

Local Abbreviation accumulate :=
  (accumulate_exposures WCS_of_header pixel_to_pixel pixel_to_skycoord
     celestial sigma_clip_5 subtract_channel_median reproject_adaptive).
Local Abbreviation combine :=
  (data_combine WCS_of_header pixel_to_pixel pixel_to_skycoord
     celestial to_header sigma_clip_5 subtract_channel_median
     reproject_adaptive).

(** the header the combined file is written with *)
Definition combined_header (wcs_combined : WCS) : Header :=
  <["COMMENT" := HStr "Combined by eris_jhchen_utils.py"]>
    (<["OBSERVER" := HStr "MPE-IR"]> (to_header wcs_combined)).

(** what a call writes and how often it resamples *)
Lemma data_combine_effects images dext mext ps ig sc sg bg hext wt save w w' r :
  combine images dext mext ps ig sc sg bg hext wt save w = (w', r) ->
  match r with
  | Raise _ => written w' = written w
  | Ok v =>
      v = None /\
      reprojections w' = reprojections w + 2 * length images
  end.
Proof.
  unfold data_combine, bind at 1. intros H.
  pose proof (accumulate_writes_nothing WCS_of_header pixel_to_pixel
                pixel_to_skycoord celestial sigma_clip_5 subtract_channel_median
                reproject_adaptive images dext mext ps ig sc sg bg hext wt w) as Hw.
  pose proof (accumulate_resamples WCS_of_header pixel_to_pixel
                pixel_to_skycoord celestial sigma_clip_5 subtract_channel_median
                reproject_adaptive images dext mext ps ig sc sg bg hext wt w) as Hr.
  destruct (accumulate images dext mext ps ig sc sg bg hext wt w)
    as [w1 [[[wcs hdr] [d c]] | e]]; simpl in Hw.
  2:{ injection H as <- <-. exact Hw. }
  specialize (Hr w1 _ eq_refl).
  unfold bind at 1, lift at 1 in H.
  destruct (from_option _ (Np.zip_with Qdiv d c)) as [q | e].
  2:{ injection H as <- <-. exact Hw. }
  destruct save as [path |].
  2:{ unfold raise in H. injection H as <- <-. exact Hw. }
  unfold bind at 1, lift at 1 in H.
  destruct hdr as [header |]; simpl in H.
  2:{ injection H as <- <-. exact Hw. }
  unfold bind at 1, lift at 1 in H.
  destruct (reset_cdelt header) as [header' | e].
  2:{ injection H as <- <-. exact Hw. }
  unfold bind, writeto, ret in H. injection H as <- <-. simpl.
  split; [reflexivity | exact Hr].
Qed.

(** A call of [data_combine] that fails has written no file. A call that
    returns was given a save path, returns [None], has resampled every
    exposure exactly twice (data and mask), and has written exactly one
    file: under that path, with the header of the combined mapping the
    accumulation ended with plus the two provenance cards, and holding the
    accumulated data divided cell by cell by the accumulated coverage. *)
Theorem data_combine_file_effects images dext mext ps ig sc sg bg hext wt save w w' r :
  data_combine WCS_of_header pixel_to_pixel pixel_to_skycoord
    celestial to_header sigma_clip_5 subtract_channel_median reproject_adaptive
    images dext mext ps ig sc sg bg hext wt save w = (w', r) ->
  match r with
  | Raise _ => written w' = written w
  | Ok v =>
      v = None /\
      reprojections w' = reprojections w + 2 * length images /\
      exists path w1 wcs_combined header d c data,
        save = Some path /\
        accumulate_exposures WCS_of_header pixel_to_pixel pixel_to_skycoord
          celestial sigma_clip_5 subtract_channel_median reproject_adaptive
          images dext mext ps ig sc sg bg hext wt w =
          (w1, Ok (wcs_combined, header, (d, c))) /\
        Np.zip_with Qdiv d c = Some data /\
        writeto path (combined_header wcs_combined) data w1 = (w', Ok tt) /\
        written w' = written w ++ [(path, combined_header wcs_combined, data)]
  end.
Proof.
  intros H. pose proof (data_combine_effects _ _ _ _ _ _ _ _ _ _ _ _ _ _ H) as He.
  destruct r as [v | e]; [| exact He].
  destruct He as [Hv Hn]. split; [exact Hv |]. split; [exact Hn |].
  unfold data_combine in H.
  apply bind_inv_ok in H as (w1 & [[wcs hdr] [d c]] & Eacc & H).
  cbv beta iota in H.
  apply bind_inv_ok in H as (w2 & data & Ediv & H).
  apply lift_inv_ok in Ediv as [Hw2 Ediv]. subst w2.
  destruct (Np.zip_with Qdiv d c) as [data' |] eqn:Ez; [| discriminate Ediv].
  simpl in Ediv. injection Ediv as ->.
  destruct save as [path |]; [| unfold raise in H; discriminate H].
  apply bind_inv_ok in H as (w2 & header & Ehdr & H).
  apply lift_inv_ok in Ehdr as [Hw2 _]. subst w2.
  apply bind_inv_ok in H as (w2 & header' & Ereset & H).
  apply lift_inv_ok in Ereset as [Hw2 _]. subst w2.
  apply bind_inv_ok in H as (w2 & [] & Ewrite & H).
  unfold ret in H. injection H as <- _.
  pose proof (accumulate_writes_nothing WCS_of_header pixel_to_pixel
                pixel_to_skycoord celestial sigma_clip_5 subtract_channel_median
                reproject_adaptive images dext mext ps ig sc sg bg hext wt w) as Hw.
  rewrite Eacc in Hw. simpl in Hw.
  exists path, w1, wcs, hdr, d, c, data.
  split; [reflexivity |]. split; [exact Eacc |].
  split; [exact Ez |]. split; [exact Ewrite |].
  unfold writeto in Ewrite. injection Ewrite as <-. simpl. rewrite Hw. reflexivity.
Qed.

(** The header edits made before saving ask for the third diagonal term:
    when the header last read has CD1_1 and CD2_2 but no CD3_3, as the
    header of an image does, saving fails with [KeyError: 'CD3_3'] after
    all the resampling, and no file is written. *)
Theorem data_combine_saving_image_fails
    images dext mext ps ig sc sg bg hext wt path w w' wcs header d c :
  accumulate_exposures WCS_of_header pixel_to_pixel pixel_to_skycoord
    celestial sigma_clip_5 subtract_channel_median reproject_adaptive
    images dext mext ps ig sc sg bg hext wt w =
    (w', Ok (wcs, Some header, (d, c))) ->
  Np.shape d = Np.shape c ->
  is_Some (header !! "CD1_1") -> is_Some (header !! "CD2_2") ->
  header !! "CD3_3" = None ->
  data_combine WCS_of_header pixel_to_pixel pixel_to_skycoord
    celestial to_header sigma_clip_5 subtract_channel_median reproject_adaptive
    images dext mext ps ig sc sg bg hext wt (Some path) w =
    (w', Raise (KeyError "CD3_3")) /\
  written w' = written w /\
  reprojections w' = reprojections w + 2 * length images.
Proof.
  intros Hacc Hsh [v1 H1] [v2 H2] H3.
  assert (Hrun : combine images dext mext ps ig sc sg bg hext wt (Some path) w =
                 (w', Raise (KeyError "CD3_3"))).
  { unfold data_combine. erewrite bind_ok by exact Hacc. cbv beta iota.
    unfold bind, lift. unfold Np.zip_with. rewrite decide_True by exact Hsh.
    simpl. unfold reset_cdelt, Header in *.
    rewrite decide_True by (rewrite H1; eauto).
    rewrite H1, H2, H3. reflexivity. }
  split; [exact Hrun |]. split.
  - exact (data_combine_effects _ _ _ _ _ _ _ _ _ _ _ _ _ _ Hrun).
  - exact (accumulate_resamples WCS_of_header pixel_to_pixel
             pixel_to_skycoord celestial sigma_clip_5 subtract_channel_median
             reproject_adaptive images dext mext ps ig sc sg bg hext wt w w' _ Hacc).
Qed.

(** With no exposure at all the call fails on the first element of an
    empty list and leaves the world as it was, in both modes. *)
Theorem data_combine_no_exposure dext mext ps ig sc sg bg hext wt save w :
  shifts_fit ps 0 ->
  data_combine WCS_of_header pixel_to_pixel pixel_to_skycoord
    celestial to_header sigma_clip_5 subtract_channel_median reproject_adaptive
    [] dext mext ps ig sc sg bg hext wt save w = (w, Raise IndexError).
Proof.
  intros Hfit. unfold data_combine, accumulate_exposures.
  erewrite bind_raise; [reflexivity |].
  erewrite bind_ok by (apply check_shift_count_ok, Hfit).
  destruct ig.
  - reflexivity.
  - erewrite bind_ok by reflexivity. cbv beta iota.
    erewrite bind_raise; [reflexivity |].
    apply (proj2 (find_combined_wcs_nothing_to_combine WCS_of_header
                    pixel_to_pixel pixel_to_skycoord "DATA" None w)).
    exact I.
Qed.

End DataCombineFiles.

(** Two good cubes saved to "out.fits". *)
Lemma data_combine_file_effects_witness :
  match
    data_combine Unit.WCS_of_header Unit.pixel_to_pixel Unit.pixel_to_skycoord
      Unit.celestial Unit.to_header Unit.sigma_clip_5 Unit.subtract_channel_median
      Unit.reproject_adaptive
      [Sample.exposure "a" 0 0 2 1; Sample.exposure "b" 1 0 2 3] "DATA" (Some "DQI")
      None false true 3 true None None (Some "out.fits") Unit.world0
  with
  | (w', Ok v) =>
      v = None /\ reprojections w' = 0 + 2 * 2 /\
      exists wcs_combined data,
        written w' = [] ++ [("out.fits"%string,
                             combined_header Unit.to_header wcs_combined, data)]
  | (_, Raise _) => False
  end.
Proof.
  destruct (data_combine _ _ _ _ _ _ _ _ _ _ _ _ _ _ _ _ _ _ _ _) as [w' r] eqn:E.
  pose proof (data_combine_file_effects _ _ _ _ _ _ _ _ _ _ _ _ _ _ _ _ _ _ _ _ _ _ E)
    as H.
  destruct r as [v | e].
  - destruct H as (Hv & Hn & path & w1 & wcs & hdr & d & c & data &
                   Hp & _ & _ & _ & Hw).
    injection Hp as <-.
    split; [exact Hv |]. split; [exact Hn |]. exists wcs, data. exact Hw.
  - vm_compute in E. discriminate E.
Defined.

(** Two 2 x 2 images with a CD matrix, saved to "out.fits". *)
Lemma data_combine_saving_image_fails_witness :
  match
    accumulate_exposures Unit.WCS_of_header Unit.pixel_to_pixel
      Unit.pixel_to_skycoord Unit.celestial Unit.sigma_clip_5
      Unit.subtract_channel_median Unit.reproject_adaptive
      [Sample2D.exposure 1; Sample2D.exposure 3] "DATA" (Some "DQI")
      None false true 3 false None None Unit.world0
  with
  | (w', Ok (_, Some _, _)) =>
      data_combine Unit.WCS_of_header Unit.pixel_to_pixel Unit.pixel_to_skycoord
        Unit.celestial Unit.to_header Unit.sigma_clip_5
        Unit.subtract_channel_median Unit.reproject_adaptive
        [Sample2D.exposure 1; Sample2D.exposure 3] "DATA" (Some "DQI")
        None false true 3 false None None (Some "out.fits") Unit.world0 =
      (w', Raise (KeyError "CD3_3"))
  | _ => False
  end.
Proof.
  destruct (accumulate_exposures _ _ _ _ _ _ _ _ _ _ _ _ _ _ _ _ _ _)
    as [w' [[[wcs [header |]] [d c]] | e]] eqn:E.
  - pose proof E as E'. vm_compute in E'.
    injection E' as <- <- <- <- <-.
    refine (proj1 (data_combine_saving_image_fails _ _ _ _ _ _ _ _ _ _ _ _ _ _ _ _ _ _
                     _ _ _ _ _ _ _ E _ _ _ _)).
    + reflexivity.
    + vm_compute. eauto.
    + vm_compute. eauto.
    + vm_compute. reflexivity.
  - vm_compute in E. discriminate E.
  - vm_compute in E. discriminate E.
Defined.

Lemma data_combine_no_exposure_witness :
  data_combine Unit.WCS_of_header Unit.pixel_to_pixel Unit.pixel_to_skycoord
    Unit.celestial Unit.to_header Unit.sigma_clip_5 Unit.subtract_channel_median
    Unit.reproject_adaptive
    [] "DATA" (Some "DQI") None true true 3 true None None None Unit.world0 =
  (Unit.world0, Raise IndexError).
Proof.
  apply data_combine_no_exposure. exact I.
Defined.

(** ** [compute_weighting_eris] *)

(** [np.array(x) / t]: numpy does not raise on a zero divisor, the quotient
    is then infinite or NaN; [None] stands for such a value. A finite
    quotient is the exact one here and the nearest float in the source. *)
Definition np_true_divide (xs : list Q) (t : Q) : list (option Q) :=
  (fun x => if Num.q_eqb t 0 then None else Some (x / t)%Q) <$> xs.

(** lines 896-902 *)
Fixpoint weighting_loop (header_ext : string) (image_list : list FitsFile)
    (total_time : Q) (time_list : list Q) : outcome (Q * list Q) :=
  match image_list with
  | [] => Ok (total_time, time_list)
  | img :: rest =>
      match img !! header_ext with
      | None => Raise (KeyError header_ext)
      | Some hdu =>
          match header_num (hdu_header hdu) "EXPTIME" with
          | Raise e => Raise e
          | Ok t => weighting_loop header_ext rest (total_time + t)%Q (time_list ++ [t])
          end
      end
  end.

(** lines 889-903; a mode other than 'exptime' falls off the end of the
    function, which then returns [None] *)
Definition compute_weighting_eris (image_list : list FitsFile) (mode : string)
    (header_ext : string) : outcome (option (list (option Q))) :=
  if decide (mode = "exptime") then
    match weighting_loop header_ext image_list 0%Q [] with
    | Raise e => Raise e
    | Ok (total_time, time_list) => Ok (Some (np_true_divide time_list total_time))
    end
  else Ok None.

Definition qsum (l : list Q) : Q := foldr Qplus 0%Q l.

(** the exposure time a file carries *)
Definition exptime_of (header_ext : string) (img : FitsFile) : option Q :=
  match img !! header_ext with
  | Some hdu =>
      match header_num (hdu_header hdu) "EXPTIME" with
      | Ok t => Some t
      | Raise _ => None
      end
  | None => None
  end.

Lemma weighting_loop_spec header_ext images ts total acc :
  Forall2 (fun img t => exptime_of header_ext img = Some t) images ts ->
  exists total',
    weighting_loop header_ext images total acc = Ok (total', acc ++ ts) /\
    (total' == total + qsum ts)%Q.
Proof.
  intros H. revert total acc.
  induction H as [| img t rest ts' Ht _ IH]; intros total acc.
  - exists total. simpl. rewrite app_nil_r. split; [reflexivity | ring].
  - unfold exptime_of in Ht. cbn [weighting_loop].
    destruct (img !! header_ext) as [hdu |]; [| discriminate].
    destruct (header_num (hdu_header hdu) "EXPTIME") as [t' |]; [| discriminate].
    injection Ht as ->.
    destruct (IH (total + t)%Q (acc ++ [t])) as (total' & E & Hs).
    exists total'. rewrite E, <- app_assoc. split; [reflexivity |].
    rewrite Hs. simpl. ring.
Qed.

Lemma qsum_nonneg ts : Forall (fun t => 0 <= t)%Q ts -> (0 <= qsum ts)%Q.
Proof.
  induction 1 as [| t ts Ht _ IH]; simpl; [apply Qle_refl | lra].
Qed.

Lemma qsum_bounds ts :
  Forall (fun t => 0 <= t)%Q ts -> Forall (fun t => t <= qsum ts)%Q ts.
Proof.
  induction 1 as [| t ts Ht Hts IH]; simpl; constructor.
  - pose proof (qsum_nonneg ts Hts). lra.
  - eapply Forall_impl; [exact IH |]. intros x Hx. simpl in Hx. lra.
Qed.

(** In the exposure-time mode, for files that all carry a numeric EXPTIME
    whose sum is not zero, the weights are the exposure times divided by
    their sum, one finite weight per file; when no exposure time is
    negative every weight lies between 0 and 1. *)
Theorem compute_weighting_eris_weights header_ext images ts :
  Forall2 (fun img t => exptime_of header_ext img = Some t) images ts ->
  ~ (qsum ts == 0)%Q ->
  exists total,
    (total == qsum ts)%Q /\
    compute_weighting_eris images "exptime" header_ext =
      Ok (Some ((fun t => Some (t / total)%Q) <$> ts)) /\
    (Forall (fun t => 0 <= t)%Q ts ->
     Forall (fun t => 0 <= t / total /\ t / total <= 1)%Q ts).
Proof.
  intros H Hnz.
  destruct (weighting_loop_spec header_ext images ts 0%Q [] H) as (total & E & Hs).
  assert (Ht : (total == qsum ts)%Q) by (rewrite Hs; ring).
  assert (Hnz' : ~ (total == 0)%Q) by (rewrite Ht; exact Hnz).
  exists total. split; [exact Ht |]. split.
  - unfold compute_weighting_eris. rewrite decide_True by reflexivity.
    rewrite E. simpl. unfold np_true_divide, Num.q_eqb.
    destruct (Qeq_bool total 0) eqn:Eb.
    + apply Qeq_bool_eq in Eb. contradiction.
    + reflexivity.
  - intros Hpos.
    assert (Htot : (0 < total)%Q).
    { pose proof (qsum_nonneg ts Hpos) as H0. rewrite <- Ht in H0.
      destruct (Qlt_le_dec 0 total) as [Hlt | Hle]; [exact Hlt |].
      exfalso. apply Hnz'. apply Qle_antisym; assumption. }
    pose proof (qsum_bounds ts Hpos) as Hb.
    rewrite Forall_forall in Hpos, Hb. apply Forall_forall. intros t Hin.
    specialize (Hpos t Hin). specialize (Hb t Hin). simpl in Hb.
    split.
    + apply Qle_shift_div_l; [exact Htot | lra].
    + apply Qle_shift_div_r; [exact Htot |]. rewrite Ht. lra.
Qed.

(** When the exposure times add up to zero no weight is a finite number,
    and the call still returns: numpy divides by zero without raising. *)
Theorem compute_weighting_eris_zero_total header_ext images ts :
  Forall2 (fun img t => exptime_of header_ext img = Some t) images ts ->
  (qsum ts == 0)%Q ->
  compute_weighting_eris images "exptime" header_ext =
    Ok (Some (replicate (length images) None)).
Proof.
  intros H Hz.
  destruct (weighting_loop_spec header_ext images ts 0%Q [] H) as (total & E & Hs).
  assert (Ht : (total == 0)%Q) by (rewrite Hs, Hz; ring).
  unfold compute_weighting_eris. rewrite decide_True by reflexivity.
  rewrite E. simpl. unfold np_true_divide, Num.q_eqb.
  apply Qeq_bool_iff in Ht. rewrite Ht.
  rewrite (Forall2_length _ _ _ H). do 2 f_equal.
  clear. induction ts as [| t ts IH]; simpl; [reflexivity | f_equal; exact IH].
Qed.

(** A file without the header unit, or without a numeric EXPTIME card,
    stops the call with the error of the failed lookup. *)
Theorem compute_weighting_eris_missing header_ext pre ts img post :
  Forall2 (fun img t => exptime_of header_ext img = Some t) pre ts ->
  exptime_of header_ext img = None ->
  exists e, compute_weighting_eris (pre ++ img :: post) "exptime" header_ext = Raise e /\
    (img !! header_ext = None -> e = KeyError header_ext) /\
    (forall hdu, img !! header_ext = Some hdu ->
       hdu_header hdu !! "EXPTIME" = None -> e = KeyError "EXPTIME").
Proof.
  intros Hpre Hbad.
  assert (Hloop : forall total acc,
             exists e, weighting_loop header_ext (pre ++ img :: post) total acc = Raise e /\
               (img !! header_ext = None -> e = KeyError header_ext) /\
               (forall hdu, img !! header_ext = Some hdu ->
                  hdu_header hdu !! "EXPTIME" = None -> e = KeyError "EXPTIME")).
  { induction Hpre as [| p t pre' ts' Hp _ IH]; intros total acc.
    - cbn [app weighting_loop]. unfold exptime_of in Hbad.
      destruct (img !! header_ext) as [hdu |] eqn:Eh.
      + destruct (header_num (hdu_header hdu) "EXPTIME") as [t | e] eqn:En;
          [discriminate |].
        exists e. split; [reflexivity |]. split; [discriminate |].
        intros hdu' [= <-] Hk. unfold header_num, Header in *. rewrite Hk in En.
        congruence.
      + exists (KeyError header_ext). split; [reflexivity |].
        split; [reflexivity | discriminate].
    - cbn [app weighting_loop]. unfold exptime_of in Hp.
      destruct (p !! header_ext) as [hdu |]; [| discriminate].
      destruct (header_num (hdu_header hdu) "EXPTIME") as [t' |]; [| discriminate].
      apply IH. }
  destruct (Hloop 0%Q []) as (e & E & H1 & H2).
  exists e. split; [| split; assumption].
  unfold compute_weighting_eris. rewrite decide_True by reflexivity.
  rewrite E. reflexivity.
Qed.

Module SampleTimes.

(** a file whose DATA header carries the exposure time [t] *)
Definition timed (t : Q) : FitsFile :=
  list_to_map
    [("DATA", mk_hdu (list_to_map [("EXPTIME", HNum t)]) (Np.full [1; 2; 2] 1%Q))].

End SampleTimes.

(** Exposures of 10 s and 30 s: the weights are 10/40 and 30/40. *)
Lemma compute_weighting_eris_weights_witness :
  exists total,
    (total == qsum [10; 30])%Q /\
    compute_weighting_eris [SampleTimes.timed 10; SampleTimes.timed 30]
      "exptime" "DATA" =
      Ok (Some ((fun t => Some (t / total)%Q) <$> [10; 30]%Q)) /\
    Forall (fun t => 0 <= t / total /\ t / total <= 1)%Q [10; 30]%Q.
Proof.
  destruct (compute_weighting_eris_weights "DATA"
              [SampleTimes.timed 10; SampleTimes.timed 30] [10; 30]%Q)
    as (total & Ht & E & Hb).
  - repeat constructor.
  - intros H. vm_compute in H. discriminate H.
  - exists total. split; [exact Ht |]. split; [exact E |].
    apply Hb. repeat constructor; discriminate.
Defined.

Lemma compute_weighting_eris_zero_total_witness :
  compute_weighting_eris [SampleTimes.timed 0; SampleTimes.timed 0]
    "exptime" "DATA" = Ok (Some [None; None]).
Proof.
  apply (compute_weighting_eris_zero_total "DATA"
           [SampleTimes.timed 0; SampleTimes.timed 0] [0; 0]%Q).
  - repeat constructor.
  - vm_compute. reflexivity.
Defined.

Lemma compute_weighting_eris_missing_witness :
  exists e,
    compute_weighting_eris ([SampleTimes.timed 10] ++ Sample.exposure "a" 0 0 2 1 :: [])
      "exptime" "DATA" = Raise e /\
    (Sample.exposure "a" 0 0 2 1 !! "DATA" = None -> e = KeyError "DATA") /\
    (forall hdu, Sample.exposure "a" 0 0 2 1 !! "DATA" = Some hdu ->
       hdu_header hdu !! "EXPTIME" = None -> e = KeyError "EXPTIME").
Proof.
  apply (compute_weighting_eris_missing "DATA" [SampleTimes.timed 10] [10%Q]).
  - repeat constructor.
  - vm_compute. reflexivity.
Defined.

(** ** [data_combine]: the mappings of the shift-only mode *)

Section ShiftOnlyMode.

Variable WCS_of_header : Header -> outcome WCS.

(** the copies of the mock mapping, one per shift *)
Definition shifted_copies (wcs_mock : WCS) (cx cy cc : Q) (xy : list (Q * Q))
    : list WCS :=
  (fun p => set_crpix wcs_mock [cx + fst p; cy + snd p; cc + 0]%Q) <$> xy.

Lemma shifted_mock_list_spec wcs_mock cx cy cc ps xy i acc w :
  crpix wcs_mock = [cx; cy; cc] ->
  (forall j p, xy !! j = Some p ->
     Np.row ps (i + j) = Some (Np.mk_nd [2] [fst p; snd p])) ->
  shifted_mock_list wcs_mock ps i (length xy) acc w =
  (set_heap w (heap w ++ shifted_copies wcs_mock cx cy cc xy),
   Ok (acc ++ seq (length (heap w)) (length xy))).
Proof.
  intros Hc. revert i acc w. induction xy as [| p xy IH]; intros i acc w Hrows.
  - simpl. rewrite !app_nil_r. destruct w; reflexivity.
  - cbn [length shifted_mock_list].
    pose proof (Hrows 0 p eq_refl) as H0. rewrite Nat.add_0_r in H0.
    unfold bind at 1, lift at 1. rewrite H0. cbn [from_option Np.shape Np.flat].
    rewrite Hc. unfold bind at 1, alloc at 1.
    rewrite IH.
    + simpl. rewrite length_app. simpl.
      rewrite <- !app_assoc. simpl.
      replace (length (heap w) + 1) with (S (length (heap w))) by lia.
      reflexivity.
    + intros j q Hj. replace (S i + j) with (i + S j) by lia.
      apply (Hrows (S j) q Hj).
Qed.

(** In the shift-only mode only the first file is read: two lists of the
    same length with the same first file resolve to the same mappings. *)
Theorem resolve_wcs_list_shift_only_reads_first_file
    (images images' : list FitsFile) ext ps w :
  length images = length images' ->
  images !! 0 = images' !! 0 ->
  resolve_wcs_list WCS_of_header images ext ps true w =
  resolve_wcs_list WCS_of_header images' ext ps true w.
Proof.
  intros Hl H0. unfold resolve_wcs_list. rewrite Hl, H0. reflexivity.
Qed.

(** In the shift-only mode with (x, y) shifts and a 3-axis mock mapping,
    exposure [j] gets a fresh copy of the mock mapping whose reference
    pixel is the mock's plus (x_j, y_j, 0); the objects already in the
    store are not touched. Without shifts every exposure is given one and
    the same object. *)
Theorem resolve_wcs_list_shift_only_copies
    (images : list FitsFile) ext f0 hdu wcs_mock cx cy cc ps xy w :
  images !! 0 = Some f0 -> f0 !! ext = Some hdu ->
  WCS_of_header (fix_micron_unit_header (hdu_header hdu)) = Ok wcs_mock ->
  crpix wcs_mock = [cx; cy; cc] ->
  length xy = length images ->
  (forall j p, xy !! j = Some p ->
     Np.row ps j = Some (Np.mk_nd [2] [fst p; snd p])) ->
  resolve_wcs_list WCS_of_header images ext (Some ps) true w =
    (set_heap w (heap w ++ shifted_copies wcs_mock cx cy cc xy),
     Ok (seq (length (heap w)) (length images),
         Some (fix_micron_unit_header (hdu_header hdu)))) /\
  resolve_wcs_list WCS_of_header images ext None true w =
    (set_heap w (heap w ++ [wcs_mock]),
     Ok (replicate (length images) (length (heap w)),
         Some (fix_micron_unit_header (hdu_header hdu)))).
Proof.
  intros H0 Hh Hm Hc Hl Hrows. unfold resolve_wcs_list.
  split.
  - erewrite bind_ok by (unfold lift; rewrite H0; reflexivity).
    erewrite bind_ok by (unfold lift; rewrite Hh; reflexivity).
    cbv zeta. rewrite Hm.
    erewrite bind_ok.
    2:{ rewrite <- Hl. apply (shifted_mock_list_spec wcs_mock cx cy cc ps xy 0 [] w Hc).
        intros j p Hj. apply Hrows, Hj. }
    rewrite Hl. reflexivity.
  - erewrite bind_ok by (unfold lift; rewrite H0; reflexivity).
    erewrite bind_ok by (unfold lift; rewrite Hh; reflexivity).
    cbv zeta. rewrite Hm. reflexivity.
Qed.

(** With shifts, the shift-only mode needs a mock mapping of three axes:
    for any other number of axes the first exposure already fails, on the
    sum of the reference pixel and the 3-vector (x, y, 0). *)
Theorem resolve_wcs_list_shift_only_needs_cube
    (images : list FitsFile) ext f0 hdu wcs_mock ps x y w :
  images !! 0 = Some f0 -> f0 !! ext = Some hdu ->
  WCS_of_header (fix_micron_unit_header (hdu_header hdu)) = Ok wcs_mock ->
  length (crpix wcs_mock) ≠ 3 ->
  Np.row ps 0 = Some (Np.mk_nd [2] [x; y]) ->
  resolve_wcs_list WCS_of_header images ext (Some ps) true w =
    (w, Raise (ValueError "operands could not be broadcast together")).
Proof.
  intros H0 Hh Hm Hc Hrow. unfold resolve_wcs_list.
  erewrite bind_ok by (unfold lift; rewrite H0; reflexivity).
  erewrite bind_ok by (unfold lift; rewrite Hh; reflexivity).
  cbv zeta. rewrite Hm.
  erewrite bind_raise; [reflexivity |].
  destruct images as [| img rest]; [discriminate H0 |].
  cbn [length shifted_mock_list].
  erewrite bind_ok by (unfold lift; rewrite Hrow; reflexivity).
  cbn [Np.shape Np.flat].
  destruct (crpix wcs_mock) as [| a [| b [| c [| d l]]]]; try reflexivity.
  simpl in Hc. congruence.
Qed.

End ShiftOnlyMode.

Lemma resolve_wcs_list_shift_only_reads_first_file_witness :
  resolve_wcs_list Unit.WCS_of_header
    [Sample.exposure "a" 0 0 2 1; Sample.exposure "b" 1 0 2 3] "DATA" None true
    Unit.world0 =
  resolve_wcs_list Unit.WCS_of_header
    [Sample.exposure "a" 0 0 2 1; Sample.spectrum] "DATA" None true Unit.world0.
Proof.
  apply resolve_wcs_list_shift_only_reads_first_file; reflexivity.
Defined.

(** Two cubes shifted by (1, 2) and (3, 4). *)
Lemma resolve_wcs_list_shift_only_copies_witness :
  exists wcs_mock header,
    resolve_wcs_list Unit.WCS_of_header
      [Sample.exposure "a" 0 0 2 1; Sample.exposure "b" 1 0 2 3] "DATA"
      (Some (Np.mk_nd [2; 2] [1; 2; 3; 4]%Q)) true Unit.world0 =
    (set_heap Unit.world0
       (shifted_copies wcs_mock 1 1 1 [(1, 2); (3, 4)]%Q),
     Ok ([0; 1], Some header)).
Proof.
  eexists _, _.
  refine (proj1 (resolve_wcs_list_shift_only_copies Unit.WCS_of_header
                   [Sample.exposure "a" 0 0 2 1; Sample.exposure "b" 1 0 2 3]
                   "DATA" (Sample.exposure "a" 0 0 2 1)
                   (mk_hdu (Sample.data_header 2) (Np.full [2; 2; 2] 1%Q))
                   _ 1 1 1 (Np.mk_nd [2; 2] [1; 2; 3; 4]%Q) [(1, 2); (3, 4)]%Q
                   Unit.world0 _ _ _ _ _ _)).
  - reflexivity.
  - vm_compute. reflexivity.
  - vm_compute. reflexivity.
  - reflexivity.
  - reflexivity.
  - intros [| [| j]] p Hj; simpl in Hj; try discriminate Hj;
      injection Hj as <-; reflexivity.
Defined.

(** Two images: the shift-only mode with shifts fails at once. *)
Lemma resolve_wcs_list_shift_only_needs_cube_witness :
  resolve_wcs_list Unit.WCS_of_header
    [Sample2D.exposure 1; Sample2D.exposure 3] "DATA"
    (Some (Np.mk_nd [2; 2] [1; 2; 3; 4]%Q)) true Unit.world0 =
  (Unit.world0, Raise (ValueError "operands could not be broadcast together")).
Proof.
  eapply (resolve_wcs_list_shift_only_needs_cube Unit.WCS_of_header
            [Sample2D.exposure 1; Sample2D.exposure 3] "DATA"
            (Sample2D.exposure 1)
            (mk_hdu Sample2D.image_header (Np.full [2; 2] 1%Q))).
  - reflexivity.
  - vm_compute. reflexivity.
  - vm_compute. reflexivity.
  - vm_compute. lia.
  - vm_compute. reflexivity.
Defined.

(** ** [read_eris_drifts] *)

(** The drift table never makes the call fail: there is one drift per
    identifier asked for; an identifier found in exactly one row gets the
    modelled position of that row minus the expected centre (32, 32); an
    identifier found in no row, or in more than one, gets (0, 0) and one
    "Drifts not found!" is printed; nothing else is printed. *)
Theorem read_eris_drifts_total (dat : list drift_row) (arcfilenames : list hval)
    (w : World) :
  exists drifts msgs,
    read_eris_drifts dat arcfilenames w = (add_stdout w msgs, Ok drifts) /\
    length drifts = length arcfilenames /\
    Forall (fun m => m = "Drifts not found!"%string) msgs /\
    forall i arcfile, arcfilenames !! i = Some arcfile ->
      match filter (fun r => arcfile_matches arcfile r = true) dat with
      | [r] => drifts !! i = Some (x_model r - 32, y_model r - 32)%Q
      | _ => drifts !! i = Some (0, 0)%Q /\ "Drifts not found!"%string ∈ msgs
      end.
Proof.
  exists (table_drift dat <$> arcfilenames), (drift_messages dat arcfilenames).
  split; [| split; [| split]].
  - unfold read_eris_drifts. rewrite read_eris_drifts_loop_spec. reflexivity.
  - apply length_fmap.
  - unfold drift_messages. apply Forall_forall. intros m Hm.
    apply list_elem_of_bind in Hm as (a & Hm & _).
    destruct (table_hit dat a); [inversion Hm |].
    apply list_elem_of_singleton in Hm. exact Hm.
  - intros i a Hi.
    assert (Hd : (table_drift dat <$> arcfilenames) !! i = Some (table_drift dat a)).
    { rewrite list_lookup_fmap, Hi. reflexivity. }
    assert (Hin : a ∈ arcfilenames) by (eapply list_elem_of_lookup_2; exact Hi).
    rewrite Hd. unfold table_drift.
    destruct (filter _ dat) as [| r [| r' l]] eqn:Ef; [| reflexivity |];
      (split; [reflexivity |]);
      unfold drift_messages; apply list_elem_of_bind; exists a;
      unfold table_hit; rewrite Ef; (split; [apply list_elem_of_singleton; reflexivity | exact Hin]).
Qed.

(** ** [compute_eris_offset]: zero scale, equal pointings *)

Lemma scale_zero (c : Q) : (c == 0)%Q -> Num.q_eqb (Num.qabs (c * 3600)) 0 = true.
Proof.
  intros Hc. unfold Num.q_eqb, Num.qabs. apply Qeq_bool_iff.
  rewrite Hc. reflexivity.
Qed.

Section OffsetEstimatorEdges.

Variable WCS_of_header : Header -> outcome WCS.
Variables header_ext header_ext_data ra_key dec_key coord_system : string.

Local Abbreviation loop :=
  (offset_loop WCS_of_header header_ext header_ext_data ra_key dec_key coord_system).

Lemma offset_loop_zero_scale img rest f zero arcs offs w :
  exposure_fields header_ext header_ext_data ra_key dec_key img = Some f ->
  ((f_cd1 f == 0)%Q \/ (f_cd2 f == 0)%Q) ->
  (zero = None ->
   first_wcs_ok WCS_of_header header_ext coord_system [img]) ->
  loop (img :: rest) zero arcs offs w = (w, Raise ZeroDivisionError).
Proof.
  intros Hf Hz Hw.
  unfold exposure_fields in Hf.
  destruct (img !! header_ext) as [hdu |] eqn:Eh; [| discriminate].
  destruct (img !! header_ext_data) as [dhdu |] eqn:Ed; [| discriminate].
  destruct (hdu_header hdu !! "ARCFILE") as [a |] eqn:Ea; [| discriminate].
  destruct (header_num (hdu_header hdu) ra_key) as [ra |] eqn:Era; [| discriminate].
  destruct (header_num (hdu_header hdu) dec_key) as [dec |] eqn:Edec; [| discriminate].
  destruct (header_num (hdu_header dhdu) "CD1_1") as [c1 |] eqn:E1; [| discriminate].
  destruct (header_num (hdu_header dhdu) "CD2_2") as [c2 |] eqn:E2; [| discriminate].
  injection Hf as <-. simpl in Hz.
  cbn [offset_loop]. unfold bind at 1, lift at 1. rewrite Eh. cbn [from_option].
  unfold bind at 1, lift at 1. rewrite Ed. cbn [from_option].
  unfold bind at 1, lift at 1. rewrite Ea. cbn [from_option].
  unfold bind at 1, lift at 1. rewrite Era.
  unfold bind at 1, lift at 1. rewrite Edec.
  unfold bind at 1, lift at 1. rewrite E1.
  unfold bind at 1, lift at 1. rewrite E2.
  unfold bind at 1.
  assert (Hzp : (match zero with
                 | Some z => ret z
                 | None =>
                     (if decide (coord_system = "sky")
                      then _ <~ lift (WCS_of_header (hdu_header hdu));; ret ()
                      else ret ());;;
                     ret (ra, dec)
                 end) w = (w, Ok (default (ra, dec) zero))).
  { destruct zero as [z |]; [reflexivity |]. simpl.
    destruct (decide (coord_system = "sky")) as [Hs | Hs]; [| reflexivity].
    destruct (Hw eq_refl Hs img hdu eq_refl Eh) as [x Hx].
    unfold bind, lift, ret. rewrite Hx. reflexivity. }
  rewrite Hzp.
  unfold bind at 1, lift at 1, py_div at 1.
  destruct (Num.q_eqb (Num.qabs (c1 * 3600)) 0) eqn:Eq1; [reflexivity |].
  unfold bind at 1, lift at 1, py_div at 1.
  destruct Hz as [Hz | Hz].
  - rewrite (scale_zero c1 Hz) in Eq1. discriminate Eq1.
  - rewrite (scale_zero c2 Hz). reflexivity.
Qed.

Lemma offset_loop_app pre fs rest z arcs offs w :
  Forall2 (readable header_ext header_ext_data ra_key dec_key) pre fs ->
  loop (pre ++ rest) (Some z) arcs offs w =
  loop rest (Some z) (arcs ++ (f_arcfile <$> fs)) (offs ++ (ocs_offset z <$> fs)) w.
Proof.
  intros H. revert arcs offs. induction H as [| img f pre' fs' Hr _ IH];
    intros arcs offs.
  - simpl. rewrite !app_nil_r. reflexivity.
  - cbn [app].
    rewrite (offset_loop_step WCS_of_header header_ext header_ext_data ra_key
               dec_key coord_system img (pre' ++ rest) f (Some z) arcs offs w Hr)
      by discriminate.
    simpl default. rewrite IH. rewrite <- !app_assoc. reflexivity.
Qed.

(** An exposure whose CD1_1 or CD2_2 is zero makes the call fail with
    [ZeroDivisionError] when its turn comes, before anything is printed. *)
Theorem compute_eris_offset_zero_scale pre fs img f post drifts w :
  Forall2 (readable header_ext header_ext_data ra_key dec_key) pre fs ->
  first_wcs_ok WCS_of_header header_ext coord_system (pre ++ img :: post) ->
  exposure_fields header_ext header_ext_data ra_key dec_key img = Some f ->
  ((f_cd1 f == 0)%Q \/ (f_cd2 f == 0)%Q) ->
  compute_eris_offset WCS_of_header (pre ++ img :: post) drifts
    header_ext header_ext_data ra_key dec_key coord_system w =
  (w, Raise ZeroDivisionError).
Proof.
  intros Hpre Hw Hf Hz. unfold compute_eris_offset.
  erewrite bind_raise; [reflexivity |].
  destruct Hpre as [| p fp pre' fs' Hp Hpre'].
  - cbn [app]. apply (offset_loop_zero_scale img post f None [] [] w Hf Hz).
    intros _. exact Hw.
  - cbn [app].
    rewrite (offset_loop_step WCS_of_header header_ext header_ext_data ra_key
               dec_key coord_system p (pre' ++ img :: post) fp None [] [] w Hp).
    + simpl default. rewrite (offset_loop_app pre' fs' (img :: post) _ _ _ w Hpre').
      apply (offset_loop_zero_scale img post f _ _ _ w Hf Hz). discriminate.
    + intros _ Hs i hdu [= <-]. apply (Hw Hs p hdu eq_refl).
Qed.

(** Exposures that all report the same pointing offset get, without
    drifts, a shift equal to zero on both axes. *)
Theorem compute_eris_offset_same_pointing images fs ra0 dec0 w :
  Forall2 (readable header_ext header_ext_data ra_key dec_key) images fs ->
  first_wcs_ok WCS_of_header header_ext coord_system images ->
  Forall (fun f => (f_ra f == ra0)%Q /\ (f_dec f == dec0)%Q) fs ->
  exists offsets,
    compute_eris_offset WCS_of_header images None
      header_ext header_ext_data ra_key dec_key coord_system w =
    (add_stdout w [">>>>>>>>\nOCS offset:"; "array_offset"]%string, Ok offsets) /\
    length offsets = length images /\
    Forall (fun p => (fst p == 0)%Q /\ (snd p == 0)%Q) offsets.
Proof.
  intros Hr Hw Hsame.
  exists (ocs_offset (zero_point fs) <$> fs). split; [| split].
  - unfold compute_eris_offset.
    erewrite bind_ok
      by (apply (offset_loop_all WCS_of_header header_ext header_ext_data ra_key
                   dec_key coord_system images fs w Hr Hw)).
    cbv beta iota. unfold bind at 1. rewrite print_eq.
    unfold bind at 1. rewrite print_eq. rewrite add_stdout_app. reflexivity.
  - rewrite length_fmap. symmetry. eapply Forall2_length, Hr.
  - destruct Hsame as [| f0 fs' [H1 H2] Hrest]; [constructor |].
    assert (Hall : Forall (fun f => (f_ra f == ra0)%Q /\ (f_dec f == dec0)%Q)
                     (f0 :: fs')) by (constructor; [split |]; assumption).
    apply Forall_fmap. eapply Forall_impl; [exact Hall |].
    intros f [Hf1 Hf2]. simpl. rewrite Hf1, Hf2, H1, H2. unfold Qdiv. split; ring.
Qed.

End OffsetEstimatorEdges.

Module SampleFlat.

(** an exposure whose CD1_1 is zero *)
Definition exposure : FitsFile :=
  list_to_map
    [("Primary", mk_hdu (Sample.primary_header "z" 0 0) (Np.mk_nd [] []));
     ("DATA", mk_hdu (list_to_map [("CD1_1", HNum 0); ("CD2_2", HNum (1 # 1800))]%Q)
                (Np.full [1; 2; 2] 1%Q))].

End SampleFlat.

Lemma compute_eris_offset_zero_scale_witness :
  compute_eris_offset Unit.WCS_of_header
    ([Sample.exposure "a" 0 0 2 1] ++ SampleFlat.exposure :: []) None
    "Primary" "DATA" Sample.ra_key Sample.dec_key "sky" Unit.world0 =
  (Unit.world0, Raise ZeroDivisionError).
Proof.
  apply (compute_eris_offset_zero_scale Unit.WCS_of_header
           "Primary" "DATA" Sample.ra_key Sample.dec_key "sky"
           [Sample.exposure "a" 0 0 2 1]
           [mk_fields (HStr "a") 0 0 (1 # 3600) (1 # 1800)]
           SampleFlat.exposure
           (mk_fields (HStr "z") 0 0 0 (1 # 1800))).
  - repeat constructor; try (vm_compute; reflexivity);
      vm_compute; intros H; discriminate H.
  - intros _ img hdu Himg Hhdu. injection Himg as <-.
    vm_compute in Hhdu. injection Hhdu as <-.
    eexists. vm_compute. reflexivity.
  - vm_compute. reflexivity.
  - left. reflexivity.
Defined.

(** Two exposures that both report the offset (1, 2). *)
Lemma compute_eris_offset_same_pointing_witness :
  exists offsets,
    compute_eris_offset Unit.WCS_of_header
      [Sample.exposure "a" 1 2 2 1; Sample.exposure "b" 1 2 2 3] None
      "Primary" "DATA" Sample.ra_key Sample.dec_key "sky" Unit.world0 =
    (add_stdout Unit.world0 [">>>>>>>>\nOCS offset:"; "array_offset"]%string,
     Ok offsets) /\
    length offsets = 2 /\
    Forall (fun p => (fst p == 0)%Q /\ (snd p == 0)%Q) offsets.
Proof.
  apply (compute_eris_offset_same_pointing Unit.WCS_of_header
           "Primary" "DATA" Sample.ra_key Sample.dec_key "sky"
           [Sample.exposure "a" 1 2 2 1; Sample.exposure "b" 1 2 2 3]
           [mk_fields (HStr "a") 1 2 (1 # 3600) (1 # 1800);
            mk_fields (HStr "b") 1 2 (1 # 3600) (1 # 1800)] 1 2).
  - repeat constructor; try (vm_compute; reflexivity);
      vm_compute; intros H; discriminate H.
  - intros _ img hdu Himg Hhdu. injection Himg as <-.
    vm_compute in Hhdu. injection Hhdu as <-.
    eexists. vm_compute. reflexivity.
  - repeat constructor.
Defined.
